(** * FinNet chaincode: account ledger, transfer engine and key codec

    A shallow embedding of the ledger chaincode (package [main]) together
    with the properties of its specification.  Go strings are byte strings
    ([string]), [int64] values are integers with their wrap-around written
    out, and the state store of the shim is a finite map from keys to
    stored JSON documents.  The records and methods of package [model]
    are not among the sources and are modelled from the specification. *)

From Stdlib Require Import ZArith Lia Ascii String.
From stdpp Require Import gmap strings list sorting pretty.

Local Open Scope string_scope.
Local Open Scope Z_scope.

(** * Part I: the program *)

(** ** Signed 64-bit arithmetic *)

Module Int64.

Definition min_int : Z := - 2 ^ 63.
Definition max_int : Z := 2 ^ 63 - 1.

Definition in_range (z : Z) : Prop := min_int <= z <= max_int.

Definition in_rangeb (z : Z) : bool := (min_int <=? z) && (z <=? max_int).

(** Two's complement wrap-around of Go's [int64] operators. *)
Definition wrap (z : Z) : Z := (z + 2 ^ 63) mod 2 ^ 64 - 2 ^ 63.

Definition add (a b : Z) : Z := wrap (a + b).
Definition sub (a b : Z) : Z := wrap (a - b).

End Int64.

(** ** Key codec *)

(** The separator appended after every key segment ([minKeyValue]). *)
Definition minKeyValue : string := "0".

(** [string(utf8.MaxRune)]: the UTF-8 encoding of U+10FFFF. *)
Definition MaxRune : string :=
  String (ascii_of_nat 244) (String (ascii_of_nat 143)
  (String (ascii_of_nat 191) (String (ascii_of_nat 191) EmptyString))).

(** [createCompositeKey]: the loop [key += att + minKeyValue] over the
  attributes, started from [objectType + minKeyValue]. *)
Definition createCompositeKey (objectType : string) (attributes : list string) : string :=
  fold_left (fun key att => key +:+ (att +:+ minKeyValue)) attributes
          (objectType +:+ minKeyValue).

(** An attribute is free of the separator when no byte of it is ["0"]. *)
Fixpoint sentinel_free (s : string) : bool :=
  match s with
  | EmptyString => true
  | String c s' => negb (Ascii.eqb c "0"%char) && sentinel_free s'
  end.

Definition attrs_free (l : list string) : Prop := Forall (fun a => sentinel_free a = true) l.

(** The attribute segments of a key, each closed by the separator. *)
Fixpoint segments (attributes : list string) : string :=
  match attributes with
  | [] => ""
  | att :: rest => att +:+ (minKeyValue +:+ segments rest)
  end.

(** An account identifier is safe for scans when, followed by the
    separator, it sorts below the maximum rune. *)
Definition scan_safe (accountID : string) : bool :=
  String.ltb (accountID +:+ minKeyValue) MaxRune.

(** ** [strconv.ParseInt(s, 10, 64)] *)

Module strconv.

Definition digit (c : ascii) : option Z :=
  let n := Z.of_nat (nat_of_ascii c) in
  if (48 <=? n) && (n <=? 57) then Some (n - 48) else None.

Fixpoint digits (s : string) (acc : Z) : option Z :=
  match s with
  | EmptyString => Some acc
  | String c s' =>
      match digit c with
      | Some d => digits s' (acc * 10 + d)
      | None => None
      end
  end.

(** [ParseUint(s, 10, 64)]: a non-empty run of decimal digits whose value
    fits 64 bits; [None] stands for a syntax or range error. *)
Definition ParseUint (s : string) : option Z :=
  match s with
  | EmptyString => None
  | _ =>
      match digits s 0 with
      | Some un => if un <? 2 ^ 64 then Some un else None
      | None => None
      end
  end.

(** [ParseInt(s, 10, 64)]: an optional sign, then [ParseUint], then the
    check against the cutoff [1 << 63]. *)
Definition ParseInt (s : string) : option Z :=
  match s with
  | EmptyString => None
  | String c s' =>
      let neg := Ascii.eqb c "-"%char in
      let body := if Ascii.eqb c "+"%char || neg then s' else s in
      match ParseUint body with
      | None => None
      | Some un =>
          if negb neg && (2 ^ 63 <=? un) then None
          else if neg && (2 ^ 63 <? un) then None
          else Some (if neg then - un else un)
      end
  end.

End strconv.

(** ** Records of package [model] *)

(** Modelled from the spec: [model.Account], whose declaration is not in
    the sources: the customer and account identifiers, the balance (an
    [int64]) and the closed flag. *)
Record Account := mkAccount {
  CustomerID : string;
  ID : string;
  Balance : Z;
  Closed : bool
}.

(** Modelled from the spec: [model.Transfer], whose declaration is not in
    the sources: the identifiers of the source and destination accounts,
    the amount and the fee (both [int64]). *)
Record Transfer := mkTransfer {
  FromCustomerID : string;
  FromAccountID : string;
  ToCustomerID : string;
  ToAccountID : string;
  Amount : Z;
  Fee : Z
}.

(** Modelled from the spec: [model.TxStatus] and [model.TxFailureCode],
    whose declarations are not in the sources; [NoFailure] is the empty
    code the handlers pass for a successful leg. *)
Inductive TxStatus := Debited | Credited | Failed.

Inductive TxFailureCode := NoFailure | AccountClosed | InsufficientFunds.

(** Modelled from the spec: [model.Transaction], whose declaration is not
    in the sources: its identifier, the account it is recorded on, its
    logical timestamp, the transfer it belongs to (amount, fee and
    counterparty identifiers), the failure code and the status. *)
Record Transaction := mkTransaction {
  TxID : string;
  TxCustomerID : string;
  TxAccountID : string;
  CreatedAt : Z;
  Details : Transfer;
  FailureCode : TxFailureCode;
  Status : TxStatus
}.

#[global] Instance Account_eq_dec : EqDecision Account.
Proof. solve_decision. Defined.
#[global] Instance Transfer_eq_dec : EqDecision Transfer.
Proof. solve_decision. Defined.
#[global] Instance TxStatus_eq_dec : EqDecision TxStatus.
Proof. solve_decision. Defined.
#[global] Instance TxFailureCode_eq_dec : EqDecision TxFailureCode.
Proof. solve_decision. Defined.
#[global] Instance Transaction_eq_dec : EqDecision Transaction.
Proof. solve_decision. Defined.

(** Errors returned by the handlers: [errors.New], [fmt.Errorf] with its
    format and argument, and the validation errors of package [model]. *)
Inductive error :=
| New (msg : string)
| Errorf (format : string) (arg : string)
| Invalid (what : string)
| Wrapf (format : string) (cause : error).

(** JSON documents, as produced by [json.Marshal] on the records. *)
Inductive bytes :=
| AccountJSON (a : Account)
| TransactionJSON (t : Transaction)
| AccountListJSON (l : list Account)
| TransactionListJSON (l : list Transaction).

(** The pair [([]byte, error)] a handler returns: either data (possibly
    [nil]) with a [nil] error, or [nil] with an error. *)
Inductive reply :=
| Return (data : option bytes)
| Error (err : error).

(** Modelled from the spec: the object-type tags of package [model], the
    decoding of caller-supplied JSON text by [encoding/json] and the
    identifiers given to new transactions.  None of them is in the
    sources; the tags namespace the two record types, so they differ and
    hold no separator. *)
Class Model := {
  AccountObjectType : string;
  TransactionObjectType : string;
  unmarshalAccount : string -> option Account;
  unmarshalTransfer : string -> Transfer;
  newTransactionID : nat -> string;
  AccountObjectType_free : sentinel_free AccountObjectType = true;
  TransactionObjectType_free : sentinel_free TransactionObjectType = true;
  ObjectTypes_distinct : AccountObjectType <> TransactionObjectType
}.

(** ** The state store *)

(** What an invocation acts on: the key-value state behind the stub, the
    [PutState] calls made so far (oldest first) and the number of
    transactions created so far. *)
Record World := mkWorld {
  state : gmap string bytes;
  puts : list (string * bytes);
  clock : nat
}.

(** Handlers thread the world through their calls. *)
Definition M (A : Type) : Type := World -> A * World.

#[global] Instance M_ret : MRet M := fun A (x : A) w => (x, w).
#[global] Instance M_bind : MBind M :=
  fun A B (f : A -> M B) (m : M A) w => let '(x, w') := m w in f x w'.

Definition GetState (key : string) : M (option bytes) :=
  fun w => (state w !! key, w).

Definition PutState (key : string) (value : bytes) : M unit :=
  fun w => (tt, {| state := <[key := value]> (state w);
                   puts := puts w ++ [(key, value)];
                   clock := clock w |}).

Definition tick : M nat :=
  fun w => (clock w, {| state := state w; puts := puts w; clock := S (clock w) |}).

(** Keys [k] with [startKey <= k < endKey], bytewise. *)
Definition in_scan (startKey endKey k : string) : bool :=
  String.leb startKey k && String.ltb k endKey.

Definition key_le (x y : string * bytes) : Prop := String.le x.1 y.1.

#[global] Instance key_le_dec : RelDecision key_le.
Proof. intros x y. unfold key_le. apply _. Defined.

(** [RangeQueryState]: the entries of the half-open key range, in key
    order. *)
Definition RangeQueryState (startKey endKey : string) : M (list (string * bytes)) :=
  fun w =>
    (merge_sort key_le
       (filter (fun kv => in_scan startKey endKey kv.1 = true) (map_to_list (state w))),
     w).

Definition emptyWorld : World := mkWorld ∅ [] 0.

(** The world after a handler call, and its reply. *)
Definition after {A : Type} (m : M A) (w : World) : World := (m w).2.
Definition answer {A : Type} (m : M A) (w : World) : A := (m w).1.

(** The writes [ws] applied to a state, oldest first. *)
Definition apply_puts (ws : list (string * bytes)) (st : gmap string bytes)
    : gmap string bytes :=
  foldl (fun m kv => <[kv.1 := kv.2]> m) st ws.

(** [w'] is [w] after exactly the writes [ws]. *)
Definition wrote (w w' : World) (ws : list (string * bytes)) : Prop :=
  puts w' = (puts w ++ ws)%list /\ state w' = apply_puts ws (state w).

(** ** The handlers *)

Section Chaincode.

Context `{Model}.

(** Modelled from the spec: the methods of [model.Account], which are not
    in the sources.  [Credit] and [Debit] are the balance arithmetic
    [balance += amount] and [balance -= amount] on [int64], with no floor
    check; [GetObjectType] is the tag the account keys are built from. *)
Definition Credit (a : Account) (amount : Z) : Account :=
  {| CustomerID := CustomerID a; ID := ID a;
     Balance := Int64.add (Balance a) amount; Closed := Closed a |}.

Definition Debit (a : Account) (amount : Z) : Account :=
  {| CustomerID := CustomerID a; ID := ID a;
     Balance := Int64.sub (Balance a) amount; Closed := Closed a |}.

(** The assignment [account.Closed = true] of [CloseAccount]. *)
Definition setClosed (a : Account) : Account :=
  {| CustomerID := CustomerID a; ID := ID a; Balance := Balance a; Closed := true |}.

(** Modelled from the spec: [model.CreateAccount], which is not in the
    sources; it decodes the payload and requires a non-empty customer and
    account identifier and a non-negative initial balance. *)
Definition CreateAccount (data : string) : option Account :=
  match unmarshalAccount data with
  | None => None
  | Some a =>
      if String.eqb (CustomerID a) "" || String.eqb (ID a) "" || (Balance a <? 0)
      then None else Some a
  end.

(** Modelled from the spec: [Transfer.Validate], which is not in the
    sources; the amount is positive, the four identifiers are present and
    the source and destination account pairs differ. *)
Definition Validate (t : Transfer) : option error :=
  if negb (0 <? Amount t) then Some (Invalid "amount")
  else if String.eqb (FromCustomerID t) "" || String.eqb (FromAccountID t) ""
          || String.eqb (ToCustomerID t) "" || String.eqb (ToAccountID t) ""
  then Some (Invalid "identifiers")
  else if String.eqb (FromCustomerID t) (ToCustomerID t)
          && String.eqb (FromAccountID t) (ToAccountID t)
  then Some (Invalid "accounts")
  else None.

(** Modelled from the spec: [model.CreateTransaction], which is not in the
    sources; the entry carries a fresh identifier, a logical timestamp
    growing with every entry, the transfer, the failure code and the
    status. *)
Definition CreateTransaction (n : nat) (customerID accountID : string) (t : Transfer)
    (code : TxFailureCode) (status : TxStatus) : Transaction :=
  {| TxID := newTransactionID n; TxCustomerID := customerID; TxAccountID := accountID;
     CreatedAt := Z.of_nat n; Details := t; FailureCode := code; Status := status |}.

(** Modelled from the spec: decoding a stored JSON document into a
    [model.Account]; the documents are objects keyed by the field names
    of the records, so an account decodes to itself and any other object
    fills the fields whose names it shares. *)
Definition json_Unmarshal_Account (data : bytes) : option Account :=
  match data with
  | AccountJSON a => Some a
  | TransactionJSON t =>
      Some {| CustomerID := TxCustomerID t; ID := TxAccountID t; Balance := 0; Closed := false |}
  | AccountListJSON _ | TransactionListJSON _ =>
      Some {| CustomerID := ""; ID := ""; Balance := 0; Closed := false |}
  end.

(** [bytesToStruct(data, new(model.Account))] with its error dropped, as
    every caller does: a failed decoding leaves the zero account. *)
Definition bytesToAccount (data : bytes) : Account :=
  default {| CustomerID := ""; ID := ""; Balance := 0; Closed := false |}
          (json_Unmarshal_Account data).

Definition accountKey (customerID accountID : string) : string :=
  createCompositeKey AccountObjectType [customerID; accountID].

Definition transactionKey (customerID accountID tranID : string) : string :=
  createCompositeKey TransactionObjectType [customerID; accountID; tranID].

Definition partialCompositeKeyQuery (objectType : string) (keys : list string)
    : M (list (string * bytes)) :=
  let partialCompositeKey := createCompositeKey objectType keys in
  RangeQueryState partialCompositeKey (partialCompositeKey +:+ MaxRune).

Definition GetAccountList (args : list string) : M reply :=
  match args with
  | [] => mret (Error (New "Missing required customer ID"))
  | customerID :: _ =>
      keysIter ← partialCompositeKeyQuery AccountObjectType [customerID];
      mret (Return (Some (AccountListJSON
        (omap (fun kv => json_Unmarshal_Account kv.2) keysIter))))
  end.

Definition GetAccount (args : list string) : M reply :=
  match args with
  | [customerID; accountID] =>
      accountBytes ← GetState (accountKey customerID accountID);
      mret (Return accountBytes)
  | _ => mret (Error (New "Missing required customer ID and / or account ID"))
  end.

Definition OpenAccount (args : list string) : M reply :=
  match args with
  | [] => mret (Error (New "Missing required account data JSON"))
  | data :: _ =>
      match CreateAccount data with
      | None => mret (Error (Wrapf "Error creating new account. Error: %s" (Invalid "account")))
      | Some account =>
          PutState (accountKey (CustomerID account) (ID account)) (AccountJSON account);;
          mret (Return (Some (AccountJSON account)))
      end
  end.

Definition TopupAccount (args : list string) : M reply :=
  match args with
  | [customerID; accountID; amountArg] =>
      r ← GetAccount [customerID; accountID];
      match r with
      | Error err => mret (Error err)
      | Return None => mret (Error (Errorf "Account with number %s not found." accountID))
      | Return (Some accountData) =>
          let account := bytesToAccount accountData in
          match strconv.ParseInt amountArg with
          | None => mret (Error (Errorf "Error parsing amount value %s" amountArg))
          | Some amount =>
              let account := Credit account amount in
              PutState (accountKey (CustomerID account) (ID account)) (AccountJSON account);;
              mret (Return (Some (AccountJSON account)))
          end
      end
  | _ => mret (Error (New "Missing required input arguments"))
  end.

Definition CloseAccount (args : list string) : M reply :=
  match args with
  | [customerID; accountID] =>
      r ← GetAccount [customerID; accountID];
      match r with
      | Error err => mret (Error err)
      | Return None => mret (Error (Errorf "Account with number %s not found." accountID))
      | Return (Some accountData) =>
          let account := setClosed (bytesToAccount accountData) in
          PutState (accountKey (CustomerID account) (ID account)) (AccountJSON account);;
          mret (Return (Some (AccountJSON account)))
      end
  | _ => mret (Error (New "Missing required customer ID and / or account ID"))
  end.

Definition recordTransaction (customerID accountID : string) (t : Transfer)
    (code : TxFailureCode) (status : TxStatus) : M unit :=
  n ← tick;
  let txn := CreateTransaction n customerID accountID t code status in
  PutState (transactionKey (TxCustomerID txn) (TxAccountID txn) (TxID txn))
           (TransactionJSON txn).

(** [debitAccount] and [creditAccount] change the account they are handed
    and store it; the changed account is returned here. *)
Definition debitAccount (a : Account) (amount : Z) : M Account :=
  let a := Debit a amount in
  PutState (accountKey (CustomerID a) (ID a)) (AccountJSON a);;
  mret a.

Definition creditAccount (a : Account) (amount : Z) : M Account :=
  let a := Credit a amount in
  PutState (accountKey (CustomerID a) (ID a)) (AccountJSON a);;
  mret a.

Definition TransferMoney (args : list string) : M reply :=
  match args with
  | [] => mret (Error (New "Missing transfer details JSON"))
  | transferData :: _ =>
      let t := unmarshalTransfer transferData in
      match Validate t with
      | Some err => mret (Error err)
      | None =>
          r ← GetAccount [FromCustomerID t; FromAccountID t];
          match r with
          | Error err => mret (Error err)
          | Return None =>
              mret (Error (Errorf "Account with number %s not found." (FromAccountID t)))
          | Return (Some accountData) =>
              let fromAccount := bytesToAccount accountData in
              r ← GetAccount [ToCustomerID t; ToAccountID t];
              match r with
              | Error err => mret (Error err)
              | Return None =>
                  mret (Error (Errorf "Account with number %s not found." (ToAccountID t)))
              | Return (Some accountData) =>
                  let toAccount := bytesToAccount accountData in
                  if Closed fromAccount then
                    recordTransaction (CustomerID fromAccount) (ID fromAccount) t
                                      AccountClosed Failed;;
                    mret (Error (Errorf "Cannot transfer money from closed account %s"
                                        (FromAccountID t)))
                  else if Closed toAccount then
                    recordTransaction (CustomerID toAccount) (ID toAccount) t
                                      AccountClosed Failed;;
                    mret (Error (Errorf "Cannot transfer money into closed account %s"
                                        (ToAccountID t)))
                  else if Int64.sub (Balance fromAccount) (Amount t) <? 0 then
                    recordTransaction (CustomerID fromAccount) (ID fromAccount) t
                                      InsufficientFunds Failed;;
                    mret (Error (Errorf "Insufficient funds available in account %s"
                                        (FromAccountID t)))
                  else
                    fromAccount ← debitAccount fromAccount (Int64.add (Amount t) (Fee t));
                    recordTransaction (CustomerID fromAccount) (ID fromAccount) t
                                      NoFailure Debited;;
                    toAccount ← creditAccount toAccount (Amount t);
                    recordTransaction (CustomerID toAccount) (ID toAccount) t
                                      NoFailure Credited;;
                    mret (Return None)
              end
          end
      end
  end.

(** *** Notions the properties are stated with *)

(** The transfer a call is about, and the accounts its look-ups find. *)
Definition transferOf (args : list string) : option Transfer :=
  match args with
  | [] => None
  | transferData :: _ => Some (unmarshalTransfer transferData)
  end.

Definition sourceOf (t : Transfer) (w : World) : option Account :=
  bytesToAccount <$> state w !! accountKey (FromCustomerID t) (FromAccountID t).

Definition destOf (t : Transfer) (w : World) : option Account :=
  bytesToAccount <$> state w !! accountKey (ToCustomerID t) (ToAccountID t).

Definition accountWrite (a : Account) : string * bytes :=
  (accountKey (CustomerID a) (ID a), AccountJSON a).

Definition transactionWrite (txn : Transaction) : string * bytes :=
  (transactionKey (TxCustomerID txn) (TxAccountID txn) (TxID txn), TransactionJSON txn).

(** The three outcomes of a call of [TransferMoney] with arguments [args]
    in world [w]: its reply [r] and its writes [ws]. *)
Inductive TransferOutcome (args : list string) (w : World) (r : reply)
    (ws : list (string * bytes)) : Prop :=
| Completed (t : Transfer) (src dst : Account) :
    transferOf args = Some t -> Validate t = None ->
    sourceOf t w = Some src -> destOf t w = Some dst ->
    Closed src = false -> Closed dst = false ->
    0 <= Int64.sub (Balance src) (Amount t) ->
    r = Return None ->
    ws = [ accountWrite (Debit src (Int64.add (Amount t) (Fee t)));
           transactionWrite
             (CreateTransaction (clock w) (CustomerID src) (ID src) t NoFailure Debited);
           accountWrite (Credit dst (Amount t));
           transactionWrite
             (CreateTransaction (S (clock w)) (CustomerID dst) (ID dst) t NoFailure Credited) ] ->
    TransferOutcome args w r ws
| Rejected (t : Transfer) (src dst on : Account) (code : TxFailureCode) (err : error) :
    transferOf args = Some t -> Validate t = None ->
    sourceOf t w = Some src -> destOf t w = Some dst ->
    (Closed src = true /\ on = src /\ code = AccountClosed)
    \/ (Closed src = false /\ Closed dst = true /\ on = dst /\ code = AccountClosed)
    \/ (Closed src = false /\ Closed dst = false
        /\ Int64.sub (Balance src) (Amount t) < 0 /\ on = src /\ code = InsufficientFunds) ->
    r = Error err ->
    ws = [ transactionWrite
             (CreateTransaction (clock w) (CustomerID on) (ID on) t code Failed) ] ->
    TransferOutcome args w r ws
| Aborted (err : error) :
    args = []
    \/ (exists t, transferOf args = Some t
                  /\ (Validate t <> None
                      \/ sourceOf t w = None
                      \/ (sourceOf t w <> None /\ destOf t w = None))) ->
    r = Error err ->
    ws = [] ->
    TransferOutcome args w r ws.

Definition isAccountWrite (kv : string * bytes) : bool :=
  match kv.2 with AccountJSON _ => true | _ => false end.

Definition isTransactionWrite (kv : string * bytes) : bool :=
  match kv.2 with TransactionJSON _ => true | _ => false end.

Definition accountWrites (ws : list (string * bytes)) : nat :=
  length (List.filter isAccountWrite ws).

Definition transactionWrites (ws : list (string * bytes)) : nat :=
  length (List.filter isTransactionWrite ws).

(** The account [a] is stored for the customer and account identifiers it
    carries. *)
Definition has_account (w : World) (customerID accountID : string) (a : Account) : Prop :=
  state w !! accountKey customerID accountID = Some (AccountJSON a)
  /\ CustomerID a = customerID /\ ID a = accountID.

(** The identifiers of an account hold no separator and its account
    identifier is safe for scans. *)
Definition ids_ok (a : Account) : Prop :=
  sentinel_free (CustomerID a) = true /\ sentinel_free (ID a) = true
  /\ scan_safe (ID a) = true.

(** Every stored document sits under the key built from its own
    identifiers, and the stored accounts have good identifiers. *)
Definition ledger_ok (st : gmap string bytes) : Prop :=
  forall k d, st !! k = Some d ->
    (exists a, d = AccountJSON a /\ k = accountKey (CustomerID a) (ID a) /\ ids_ok a)
    \/ (exists t, d = TransactionJSON t
                  /\ k = transactionKey (TxCustomerID t) (TxAccountID t) (TxID t)).

Definition partialKey (customerID : string) : string :=
  createCompositeKey AccountObjectType [customerID].

(** The world after opening the accounts of the payloads [datas], oldest
    first. *)
Definition openAll (datas : list string) (w : World) : World :=
  foldl (fun w data => after (OpenAccount [data]) w) w datas.

(** The calls that change the ledger. *)
Inductive call :=
| CallOpenAccount (args : list string)
| CallTopupAccount (args : list string)
| CallCloseAccount (args : list string)
| CallTransferMoney (args : list string).

Definition perform (w : World) (c : call) : World :=
  match c with
  | CallOpenAccount args => after (OpenAccount args) w
  | CallTopupAccount args => after (TopupAccount args) w
  | CallCloseAccount args => after (CloseAccount args) w
  | CallTransferMoney args => after (TransferMoney args) w
  end.

(** The account that a call of [OpenAccount] stores, if any. *)
Definition opened (c : call) : option Account :=
  match c with
  | CallOpenAccount (data :: _) => CreateAccount data
  | _ => None
  end.

(** The account that the call opens, if any, has good identifiers. *)
Definition call_ok (c : call) : Prop :=
  forall a, opened c = Some a -> ids_ok a.

(** The accounts that the calls open have good identifiers. *)
Definition calls_ok (calls : list call) : Prop := Forall call_ok calls.

End Chaincode.

(** ** A concrete model for scenarios *)

(** Caller-supplied JSON texts are decoded by table look-up. *)
Fixpoint lookup_table {A : Type} (tbl : list (string * A)) (s : string) : option A :=
  match tbl with
  | [] => None
  | (k, v) :: tbl' => if String.eqb k s then Some v else lookup_table tbl' s
  end.

Definition tableModel (accounts : list (string * Account))
    (transfers : list (string * Transfer)) : Model :=
  {| AccountObjectType := "Account";
     TransactionObjectType := "Transaction";
     unmarshalAccount := lookup_table accounts;
     unmarshalTransfer :=
       fun s => default (mkTransfer "" "" "" "" 0 0) (lookup_table transfers s);
     newTransactionID := fun n => "tx" +:+ pretty n;
     AccountObjectType_free := eq_refl;
     TransactionObjectType_free := eq_refl;
     ObjectTypes_distinct := ltac:(discriminate) |}.

Definition accountA : Account := mkAccount "c1" "a1" 1000 false.
Definition accountA2 : Account := mkAccount "c1" "a2" 5 false.
Definition accountB : Account := mkAccount "c2" "a2" 0 false.
Definition accountZ : Account := mkAccount "c3" "a3" 0 false.
Definition accountM : Account := mkAccount "c1" MaxRune 5 false.
Definition accountY : Account := mkAccount "c4" "a4" 1 false.

Definition transfer1 : Transfer := mkTransfer "c1" "a1" "c2" "a2" 200 10.
Definition transfer2 : Transfer := mkTransfer "c1" "a1" "c2" "a2" 5000 0.
Definition transfer3 : Transfer := mkTransfer "c1" "a1" "c2" "a2" 1000 10.
Definition transfer4 : Transfer := mkTransfer "c3" "a3" "c2" "a2" 1 0.
Definition transfer5 : Transfer := mkTransfer "c4" "a4" "c2" "a2" 1 9223372036854775807.
Definition transfer6 : Transfer := mkTransfer "c4" "a4" "c2" "a2" 2 0.

(** The payloads ["A"], ["B"], ... decode to the accounts and transfers
    above. *)
Definition scenario : Model :=
  tableModel
    [("A", accountA); ("A2", accountA2); ("B", accountB); ("Z", accountZ); ("M", accountM);
     ("Y", accountY)]
    [("T1", transfer1); ("T2", transfer2); ("T3", transfer3); ("T4", transfer4);
     ("T5", transfer5); ("T6", transfer6)].

(** The same payloads without account M, whose identifier is the maximum
    rune. *)
Definition safeScenario : Model :=
  tableModel
    [("A", accountA); ("A2", accountA2); ("B", accountB)]
    [("T1", transfer1); ("T2", transfer2)].

(** Accounts A (customer c1, account a1, balance 1000) and B (customer
    c2, account a2, balance 0) opened on an empty ledger. *)
Definition worldAB : World := @openAll scenario ["A"; "B"] emptyWorld.

(** Account R of customer c2, account a2, holds the largest [int64]. *)
Definition accountR : Account := mkAccount "c2" "a2" 9223372036854775807 false.

Definition fullScenario : Model :=
  tableModel [("A", accountA); ("R", accountR)] [("T1", transfer1)].

(** Accounts A and R opened on an empty ledger. *)
Definition worldAR : World := @openAll fullScenario ["A"; "R"] emptyWorld.

(** The first byte of a key remainder, if any, is below the first byte
    of the maximum rune. *)
Definition lead_below_max (r : string) : bool :=
  match r with
  | EmptyString => true
  | String c _ => (N_of_ascii c <? 244)%N
  end.

(** ** The transaction ledger *)

(** Modelled from the spec: the decoding of a stored JSON document into a
    [model.Transaction] by [encoding/json], whose struct tags are not in
    the sources.  A marshalled transaction decodes to itself; what any
    other document decodes to is left open. *)
Class TransactionDecoding := {
  json_Unmarshal_Transaction : bytes -> option Transaction;
  json_Unmarshal_Transaction_own :
    forall t, json_Unmarshal_Transaction (TransactionJSON t) = Some t
}.

(** Modelled from the spec: [sort.Reverse(model.ByCreated(...))], which is
    not in the sources: an entry comes before another when it was created
    no earlier. *)
Definition created_ge (x y : Transaction) : Prop := CreatedAt y <= CreatedAt x.

#[global] Instance created_ge_dec : RelDecision created_ge.
Proof. intros x y. unfold created_ge. apply _. Defined.

(** [sort.Sort] on the entries.  The library's sort is not stable and the
    order it gives entries created at the same time is not fixed by the
    sources; here they are ordered as a merge sort orders them. *)
Definition sortByCreated (l : list Transaction) : list Transaction :=
  merge_sort created_ge l.

Section Transaction_ledger.

Context `{Model}.

Definition GetTransaction (args : list string) : M reply :=
  match args with
  | [customerID; accountID; tranID] =>
      txnBytes ← GetState (transactionKey customerID accountID tranID);
      mret (Return txnBytes)
  | _ => mret (Error (New "Missing required account ID and / or transaction ID"))
  end.

Definition GetTransactionList `{TransactionDecoding} (args : list string) : M reply :=
  match args with
  | [customerID; accountID] =>
      keysIter ← partialCompositeKeyQuery TransactionObjectType [customerID; accountID];
      mret (Return (Some (TransactionListJSON
        (sortByCreated (omap (fun kv => json_Unmarshal_Transaction kv.2) keysIter)))))
  | _ => mret (Error (New "Missing required customer ID and / or account ID"))
  end.

(** *** Notions the properties of the transaction ledger are stated with *)

(** The transaction [t] is stored for the account and identifier it
    carries. *)
Definition has_transaction (w : World) (customerID accountID tranID : string)
    (t : Transaction) : Prop :=
  state w !! transactionKey customerID accountID tranID = Some (TransactionJSON t)
  /\ TxCustomerID t = customerID /\ TxAccountID t = accountID /\ TxID t = tranID.

(** The account identifiers of a transaction hold no separator. *)
Definition tx_ok (t : Transaction) : Prop :=
  sentinel_free (TxCustomerID t) = true /\ sentinel_free (TxAccountID t) = true.

(** The stored transactions have good account identifiers. *)
Definition txs_ok (st : gmap string bytes) : Prop :=
  forall k t, st !! k = Some (TransactionJSON t) -> tx_ok t.

(** A well-kept ledger whose transactions have good account identifiers. *)
Definition journal_ok (st : gmap string bytes) : Prop := ledger_ok st /\ txs_ok st.

(** Every stored transaction got its identifier from a tick of the clock
    before [now]. *)
Definition dated (st : gmap string bytes) (now : nat) : Prop :=
  forall k t, st !! k = Some (TransactionJSON t) ->
    exists n, (n < now)%nat /\ TxID t = newTransactionID n.

Definition journal_dated (w : World) : Prop := dated (state w) (clock w).

(** What the calls keep of a world they start from. *)
Definition journal_inv (w : World) : Prop := journal_ok (state w) /\ journal_dated w.

(** The identifiers given to new transactions are safe for scans. *)
Definition generator_safe : Prop := forall n, scan_safe (newTransactionID n) = true.

Definition partialTransactionKey (customerID accountID : string) : string :=
  createCompositeKey TransactionObjectType [customerID; accountID].

(** A call other than [OpenAccount]. *)
Definition keeps_accounts (c : call) : bool :=
  match c with
  | CallOpenAccount _ => false
  | _ => true
  end.

(** A call of [CloseAccount] or [TransferMoney]. *)
Definition closes_or_transfers (c : call) : bool :=
  match c with
  | CallCloseAccount _ | CallTransferMoney _ => true
  | _ => false
  end.

End Transaction_ledger.

(** Stored transactions decode to themselves and nothing else decodes. *)
Definition plainDecoding : TransactionDecoding :=
  {| json_Unmarshal_Transaction :=
       fun data => match data with TransactionJSON t => Some t | _ => None end;
     json_Unmarshal_Transaction_own := fun t => eq_refl |}.

(** Customers 10 and 1: the identifiers of account D hold the separator. *)
Definition accountD : Account := mkAccount "10" "1" 7 false.

(** Five with fee 1 from customer 10, account 1, to customer 1, account
    01. *)
Definition transfer9 : Transfer := mkTransfer "10" "1" "1" "01" 5 1.

Definition collidingScenario : Model :=
  tableModel [("D", accountD)] [("T9", transfer9)].

(** The reply of a call. *)
Definition respond `{Model} (w : World) (c : call) : reply :=
  match c with
  | CallOpenAccount args => answer (OpenAccount args) w
  | CallTopupAccount args => answer (TopupAccount args) w
  | CallCloseAccount args => answer (CloseAccount args) w
  | CallTransferMoney args => answer (TransferMoney args) w
  end.

(** Payloads for the scenarios of the transaction ledger: the accounts A,
    A2 and B, the transfers of 200 and 5000 from A to B, a transfer from A
    to the account c9/a9 and one from c9/a9 to B. *)
Definition transfer7 : Transfer := mkTransfer "c1" "a1" "c9" "a9" 10 0.
Definition transfer8 : Transfer := mkTransfer "c9" "a9" "c2" "a2" 10 0.

Definition journalScenario : Model :=
  tableModel
    [("A", accountA); ("A2", accountA2); ("B", accountB)]
    [("T1", transfer1); ("T2", transfer2); ("T7", transfer7); ("T8", transfer8)].

Definition worldJ : World := @openAll journalScenario ["A"; "A2"; "B"] emptyWorld.

(** * Part II: properties *)

(** ** Signed 64-bit arithmetic *)

Lemma Int64_in_rangeb_spec (z : Z) : Int64.in_rangeb z = true <-> Int64.in_range z.
Proof. unfold Int64.in_rangeb, Int64.in_range. rewrite andb_true_iff. lia. Qed.

Lemma Int64_wrap_in_range (z : Z) : Int64.in_range (Int64.wrap z).
Proof.
  unfold Int64.in_range, Int64.wrap, Int64.min_int, Int64.max_int.
  pose proof (Z.mod_pos_bound (z + 2 ^ 63) (2 ^ 64) ltac:(lia)). lia.
Qed.

Lemma Int64_wrap_small (z : Z) : Int64.in_range z -> Int64.wrap z = z.
Proof.
  unfold Int64.in_range, Int64.wrap, Int64.min_int, Int64.max_int. intros Hz.
  rewrite Z.mod_small by lia. lia.
Qed.

Lemma Int64_wrap_congr (a b : Z) :
  (a - b) mod 2 ^ 64 = 0 -> Int64.wrap a = Int64.wrap b.
Proof.
  unfold Int64.wrap. intros Hab. f_equal.
  replace (a + 2 ^ 63) with ((b + 2 ^ 63) + (a - b)) by lia.
  rewrite Z.add_mod by lia. rewrite Hab, Z.add_0_r.
  apply Z.mod_mod. lia.
Qed.

(** Subtracting a wrapped value and wrapping is subtracting and wrapping. *)
Lemma Int64_wrap_wrap_sub (a b : Z) :
  Int64.wrap (a - Int64.wrap b) = Int64.wrap (a - b).
Proof.
  apply Int64_wrap_congr. unfold Int64.wrap.
  replace (a - ((b + 2 ^ 63) mod 2 ^ 64 - 2 ^ 63) - (a - b))
    with (- ((b + 2 ^ 63) mod 2 ^ 64 - (b + 2 ^ 63))) by lia.
  rewrite (Z.mod_eq (b + 2 ^ 63) (2 ^ 64)) by lia.
  replace (- (b + 2 ^ 63 - 2 ^ 64 * ((b + 2 ^ 63) / 2 ^ 64) - (b + 2 ^ 63)))
    with (((b + 2 ^ 63) / 2 ^ 64) * 2 ^ 64) by lia.
  apply Z.mod_mul. lia.
Qed.

(** ** Key codec *)

Lemma append_nil_l (s : string) : "" +:+ s = s.
Proof. reflexivity. Qed.

Lemma append_cons (c : ascii) (s t : string) : String c s +:+ t = String c (s +:+ t).
Proof. reflexivity. Qed.

Lemma append_nil_r (s : string) : s +:+ "" = s.
Proof. induction s as [|c s IH]; [done|]. by rewrite append_cons, IH. Qed.

Lemma append_assoc (s t u : string) : (s +:+ t) +:+ u = s +:+ (t +:+ u).
Proof. induction s as [|c s IH]; [done|]. by rewrite !append_cons, IH. Qed.

Lemma createCompositeKey_fold (acc : string) (attributes : list string) :
  fold_left (fun key att => key +:+ (att +:+ minKeyValue)) attributes acc
  = acc +:+ segments attributes.
Proof.
  revert acc. induction attributes as [|att rest IH]; intros acc; simpl.
  - by rewrite append_nil_r.
  - rewrite IH. by rewrite !append_assoc.
Qed.

Lemma createCompositeKey_segments (objectType : string) (attributes : list string) :
  createCompositeKey objectType attributes
  = objectType +:+ (minKeyValue +:+ segments attributes).
Proof.
  unfold createCompositeKey. rewrite createCompositeKey_fold. apply append_assoc.
Qed.

Lemma str_prefix_nil_l (s : string) : String.prefix "" s = true.
Proof. by destruct s. Qed.

Lemma str_prefix_cons (a b : ascii) (s t : string) :
  String.prefix (String a s) (String b t) = true <-> a = b /\ String.prefix s t = true.
Proof.
  simpl. destruct (ascii_dec a b) as [->|Hne]; [tauto|].
  split; [done|]. by intros [? _].
Qed.

Lemma str_prefix_refl (s : string) : String.prefix s s = true.
Proof. induction s as [|c s IH]; [done|]. by apply str_prefix_cons. Qed.

Lemma str_prefix_append (s t u : string) :
  String.prefix (s +:+ t) (s +:+ u) = String.prefix t u.
Proof.
  induction s as [|c s IH]; [done|].
  rewrite !append_cons. simpl. by destruct (ascii_dec c c).
Qed.

Lemma str_prefix_append_r (s t : string) : String.prefix s (s +:+ t) = true.
Proof.
  rewrite <- (append_nil_r s) at 1. rewrite str_prefix_append. apply str_prefix_nil_l.
Qed.

Lemma str_prefix_split (s t : string) :
  String.prefix s t = true <-> exists r, t = s +:+ r.
Proof.
  split.
  - revert t. induction s as [|c s IH]; intros t Hp.
    + by exists t.
    + destruct t as [|d t]; [done|].
      apply str_prefix_cons in Hp as [-> Hp]. destruct (IH _ Hp) as [r ->].
      by exists r.
  - intros [r ->]. apply str_prefix_append_r.
Qed.

(** A separator-free attribute followed by the separator determines where
    the segment ends: two such segments are prefix-related only when the
    attributes are equal. *)
Lemma prefix_segment (a b r1 r2 : string) :
  sentinel_free a = true -> sentinel_free b = true ->
  String.prefix (a +:+ (minKeyValue +:+ r1)) (b +:+ (minKeyValue +:+ r2)) = true
  <-> a = b /\ String.prefix r1 r2 = true.
Proof.
  revert b. induction a as [|c a IH]; intros [|d b] Ha Hb.
  - rewrite !append_nil_l. unfold minKeyValue. rewrite !append_cons, !append_nil_l.
    rewrite str_prefix_cons. tauto.
  - rewrite append_nil_l, append_cons. unfold minKeyValue at 1.
    rewrite append_cons, append_nil_l, str_prefix_cons.
    simpl in Hb. apply andb_prop in Hb as [Hd _].
    split; [|by intros [? _]]. intros [<- _]. done.
  - rewrite append_nil_l, append_cons. unfold minKeyValue at 2.
    rewrite append_cons, append_nil_l, str_prefix_cons.
    simpl in Ha. apply andb_prop in Ha as [Hc _].
    split; [|by intros [? _]]. intros [-> _]. done.
  - rewrite !append_cons, str_prefix_cons.
    simpl in Ha, Hb. apply andb_prop in Ha as [_ Ha]. apply andb_prop in Hb as [_ Hb].
    rewrite (IH b Ha Hb). split.
    + intros (-> & -> & ?). done.
    + intros [Heq ?]. injection Heq as -> ->. done.
Qed.

Lemma prefix_segments (l1 l2 : list string) :
  attrs_free l1 -> attrs_free l2 ->
  String.prefix (segments l1) (segments l2) = true <-> l1 `prefix_of` l2.
Proof.
  revert l2. induction l1 as [|a l1 IH]; intros l2 H1 H2.
  - simpl. rewrite str_prefix_nil_l. split; [intros _; apply prefix_nil | done].
  - destruct l2 as [|b l2].
    + simpl. split.
      * intros Hp. exfalso. revert Hp.
        destruct a; [by rewrite append_nil_l | by rewrite append_cons].
      * intros Hp. by apply prefix_nil_not in Hp.
    + apply Forall_cons in H1 as [Ha H1]. apply Forall_cons in H2 as [Hb H2].
      simpl. rewrite (prefix_segment a b _ _ Ha Hb), (IH l2 H1 H2). split.
      * intros [-> Hp]. by apply prefix_cons.
      * intros Hp. split; [by eapply prefix_cons_inv_1 | by eapply prefix_cons_inv_2].
Qed.

Lemma createCompositeKey_prefix (objectType : string) (l1 l2 : list string) :
  attrs_free l1 -> attrs_free l2 ->
  String.prefix (createCompositeKey objectType l1) (createCompositeKey objectType l2) = true
  <-> l1 `prefix_of` l2.
Proof.
  intros H1 H2. rewrite !createCompositeKey_segments, !str_prefix_append.
  by apply prefix_segments.
Qed.

Lemma createCompositeKey_inj (objectType : string) (l1 l2 : list string) :
  attrs_free l1 -> attrs_free l2 ->
  createCompositeKey objectType l1 = createCompositeKey objectType l2 -> l1 = l2.
Proof.
  intros H1 H2 Heq. apply (anti_symm prefix).
  - apply (createCompositeKey_prefix objectType); [done..|].
    rewrite Heq. apply str_prefix_refl.
  - apply (createCompositeKey_prefix objectType); [done..|].
    rewrite Heq. apply str_prefix_refl.
Qed.

Lemma createCompositeKey_app (objectType : string) (l1 l2 : list string) :
  createCompositeKey objectType (l1 ++ l2)
  = createCompositeKey objectType l1 +:+ segments l2.
Proof.
  unfold createCompositeKey. rewrite fold_left_app.
  by rewrite (createCompositeKey_fold _ l2).
Qed.

(** C6, amended: [createCompositeKey] is deterministic, and on attribute
    tuples that hold no separator it is injective; the key of one tuple is
    a string prefix of the key of another exactly when the first tuple is
    an initial segment of the second, so two distinct tuples of the same
    length never give prefix-related keys. *)
Theorem createCompositeKey_distinct_keys (objectType : string) (l1 l2 : list string) :
  attrs_free l1 -> attrs_free l2 ->
  (l1 = l2 -> createCompositeKey objectType l1 = createCompositeKey objectType l2)
  /\ (l1 <> l2 -> createCompositeKey objectType l1 <> createCompositeKey objectType l2)
  /\ (String.prefix (createCompositeKey objectType l1)
                    (createCompositeKey objectType l2) = true <-> l1 `prefix_of` l2)
  /\ (length l1 = length l2 -> l1 <> l2 ->
      String.prefix (createCompositeKey objectType l1)
                    (createCompositeKey objectType l2) = false
      /\ String.prefix (createCompositeKey objectType l2)
                       (createCompositeKey objectType l1) = false).
Proof.
  intros H1 H2. split; [by intros ->|]. split.
  { intros Hne Heq. apply Hne. by eapply createCompositeKey_inj. }
  split; [by apply createCompositeKey_prefix|].
  intros Hlen Hne. split; apply not_true_is_false; intros Hp.
  - apply (createCompositeKey_prefix objectType l1 l2 H1 H2) in Hp.
    apply Hne. by apply prefix_length_eq; [|rewrite Hlen].
  - apply (createCompositeKey_prefix objectType l2 l1 H2 H1) in Hp.
    apply Hne. symmetry. by apply prefix_length_eq; [|rewrite Hlen].
Qed.

Lemma createCompositeKey_distinct_keys_witness :
  attrs_free ["c1"; "a1"] /\ attrs_free ["c1"; "a2"]
  /\ createCompositeKey "Account" ["c1"; "a1"] <> createCompositeKey "Account" ["c1"; "a2"]
  /\ String.prefix (createCompositeKey "Account" ["c1"; "a1"])
                   (createCompositeKey "Account" ["c1"; "a2"]) = false.
Proof.
  assert (Hf1 : attrs_free ["c1"; "a1"]) by (repeat constructor).
  assert (Hf2 : attrs_free ["c1"; "a2"]) by (repeat constructor).
  destruct (createCompositeKey_distinct_keys "Account" _ _ Hf1 Hf2)
    as (_ & Hne & _ & Hlen).
  split; [exact Hf1|]. split; [exact Hf2|]. split.
  - apply Hne. discriminate.
  - apply Hlen; [reflexivity | discriminate].
Defined.

(** C6 as stated fails: the key of the tuple [c1] is a string prefix of
    the key of the distinct tuple [c1, a1], although neither attribute
    holds the separator. *)
Lemma createCompositeKey_prefix_collision :
  attrs_free ["c1"] /\ attrs_free ["c1"; "a1"] /\ ["c1"] <> ["c1"; "a1"]
  /\ String.prefix (createCompositeKey "Account" ["c1"])
                   (createCompositeKey "Account" ["c1"; "a1"]) = true.
Proof.
  split; [repeat constructor|]. split; [repeat constructor|].
  split; [discriminate | reflexivity].
Qed.

(** ** Facts about [strconv.ParseInt] *)

Lemma digit_range (c : ascii) (d : Z) : strconv.digit c = Some d -> 0 <= d <= 9.
Proof.
  unfold strconv.digit.
  destruct (_ && _) eqn:Hc; [|done]. intros [= <-].
  apply andb_prop in Hc as [H1%Z.leb_le H2%Z.leb_le]. lia.
Qed.

Lemma digits_nonneg (s : string) (acc n : Z) :
  0 <= acc -> strconv.digits s acc = Some n -> 0 <= n.
Proof.
  revert acc. induction s as [|c s IH]; intros acc Hacc; simpl.
  - by intros [= <-].
  - destruct (strconv.digit c) as [d|] eqn:Hd; [|done].
    apply digit_range in Hd. apply IH. lia.
Qed.

(** Whatever [ParseInt] accepts is an [int64]. *)
Lemma ParseInt_in_range (s : string) (n : Z) :
  strconv.ParseInt s = Some n -> Int64.in_range n.
Proof.
  unfold strconv.ParseInt. destruct s as [|c s]; [done|].
  match goal with |- context [strconv.ParseUint ?b] => set (body := b) end.
  destruct (strconv.ParseUint body) as [un|] eqn:Hun; [|done].
  assert (0 <= un).
  { unfold strconv.ParseUint in Hun. destruct body; [done|].
    destruct (strconv.digits _ 0) as [m|] eqn:Hm; [|done].
    destruct (m <? 2 ^ 64); [|done]. injection Hun as <-.
    eapply digits_nonneg; [|exact Hm]. lia. }
  unfold Int64.in_range, Int64.min_int, Int64.max_int.
  destruct (Ascii.eqb c "-"); simpl.
  - destruct (2 ^ 63 <? un) eqn:Hlt; [done|]. intros [= <-].
    apply Z.ltb_ge in Hlt. lia.
  - destruct (2 ^ 63 <=? un) eqn:Hle; [done|]. intros [= <-].
    apply Z.leb_gt in Hle. lia.
Qed.

Example ParseInt_examples :
  strconv.ParseInt "" = None /\ strconv.ParseInt "12x" = None
  /\ strconv.ParseInt "+" = None /\ strconv.ParseInt "1.5" = None
  /\ strconv.ParseInt "9223372036854775808" = None
  /\ strconv.ParseInt "-9223372036854775808" = Some (-9223372036854775808)
  /\ strconv.ParseInt "0" = Some 0 /\ strconv.ParseInt "+7" = Some 7
  /\ strconv.ParseInt "-5" = Some (-5).
Proof. repeat split; reflexivity. Qed.

(** ** The transfer engine *)

Section Transfer_engine.

Context `{Model}.

Lemma wrote_nil (w : World) : wrote w w [].
Proof. split; [by rewrite app_nil_r | done]. Qed.

Lemma TransferMoney_cases (args : list string) (w : World) :
  exists ws, wrote w (after (TransferMoney args) w) ws
             /\ TransferOutcome args w (answer (TransferMoney args) w) ws.
Proof.
  unfold after, answer, TransferMoney.
  destruct args as [|data rest].
  { exists []. split; [apply wrote_nil|]. by eapply Aborted; [left|..]. }
  set (t := unmarshalTransfer data).
  destruct (Validate t) as [err|] eqn:Hval.
  { exists []. split; [apply wrote_nil|].
    eapply Aborted; [right; exists t; split; [done|left; congruence] | done..]. }
  unfold mbind, M_bind, mret, M_ret, GetAccount, GetState. simpl.
  destruct (state w !! accountKey (FromCustomerID t) (FromAccountID t))
    as [srcData|] eqn:Hsrc; simpl.
  2:{ exists []. split; [apply wrote_nil|].
      eapply Aborted; [right; exists t; split; [done|right; left] | done..].
      unfold sourceOf. by rewrite Hsrc. }
  destruct (state w !! accountKey (ToCustomerID t) (ToAccountID t))
    as [dstData|] eqn:Hdst; simpl.
  2:{ exists []. split; [apply wrote_nil|].
      eapply Aborted; [right; exists t; split; [done|right; right] | done..].
      unfold sourceOf, destOf. rewrite Hsrc, Hdst. done. }
  assert (Hs : sourceOf t w = Some (bytesToAccount srcData))
    by (unfold sourceOf; by rewrite Hsrc).
  assert (Hd : destOf t w = Some (bytesToAccount dstData))
    by (unfold destOf; by rewrite Hdst).
  destruct (Closed (bytesToAccount srcData)) eqn:Hcs; simpl.
  { eexists. split; [split; simpl; reflexivity|].
    eapply (Rejected _ _ _ _ t _ _ (bytesToAccount srcData)); eauto. }
  destruct (Closed (bytesToAccount dstData)) eqn:Hcd; simpl.
  { eexists. split; [split; simpl; reflexivity|].
    eapply (Rejected _ _ _ _ t _ _ (bytesToAccount dstData));
      [reflexivity | exact Hval | exact Hs | exact Hd
      | right; left; repeat split; assumption || reflexivity
      | reflexivity | reflexivity]. }
  destruct (Int64.sub (Balance (bytesToAccount srcData)) (Amount t) <? 0) eqn:Hlt; simpl.
  { apply Z.ltb_lt in Hlt.
    eexists. split; [split; simpl; reflexivity|].
    eapply (Rejected _ _ _ _ t _ _ (bytesToAccount srcData));
      [reflexivity | exact Hval | exact Hs | exact Hd
      | right; right; repeat split; assumption || reflexivity
      | reflexivity | reflexivity]. }
  apply Z.ltb_ge in Hlt.
  eexists. split; [split; simpl|].
  - rewrite <- !app_assoc. simpl. reflexivity.
  - reflexivity.
  - eapply Completed; eauto.
Qed.

(** The tags keep account keys and transaction keys apart. *)
Lemma accountKey_transactionKey (c a c' a' i : string) :
  accountKey c a <> transactionKey c' a' i.
Proof.
  unfold accountKey, transactionKey. rewrite !createCompositeKey_segments.
  intros Heq.
  assert (Hp : String.prefix
            (AccountObjectType +:+ (minKeyValue +:+ segments [c; a]))
            (TransactionObjectType +:+ (minKeyValue +:+ segments [c'; a'; i])) = true)
    by (rewrite Heq; apply str_prefix_refl).
  apply prefix_segment in Hp as [Htag _];
    [| apply AccountObjectType_free | apply TransactionObjectType_free].
  by apply ObjectTypes_distinct.
Qed.

(** C1: every call of [TransferMoney] ends in exactly one of three ways.
    A completed transfer writes the debited source account, a Debited
    transaction on it, the credited destination account and a Credited
    transaction on it, in this order: two account writes and two
    transaction writes.  A transfer rejected at the closed-account or
    insufficient-funds checks writes one Failed transaction and no
    account, and every account key keeps its document.  A call that fails
    validation or a look-up writes nothing.  Nothing else is written, and
    the state changes by these writes only. *)
Theorem TransferMoney_outcomes (args : list string) (w : World) :
  exists ws,
    wrote w (after (TransferMoney args) w) ws
    /\ TransferOutcome args w (answer (TransferMoney args) w) ws
    /\ ((answer (TransferMoney args) w = Return None
         /\ length ws = 4%nat /\ accountWrites ws = 2%nat /\ transactionWrites ws = 2%nat)
        \/ ((exists err, answer (TransferMoney args) w = Error err)
            /\ length ws = 1%nat /\ accountWrites ws = 0%nat /\ transactionWrites ws = 1%nat
            /\ (forall c a, state (after (TransferMoney args) w) !! accountKey c a
                            = state w !! accountKey c a))
        \/ ((exists err, answer (TransferMoney args) w = Error err)
            /\ ws = [] /\ state (after (TransferMoney args) w) = state w)).
Proof.
  destruct (TransferMoney_cases args w) as (ws & Hw & Hout).
  exists ws. split; [done|]. split; [done|].
  destruct Hout as [t src dst _ _ _ _ _ _ _ -> -> |
                    t src dst on code err _ _ _ _ _ -> -> |
                    err _ -> ->].
  - left. done.
  - right. left. split; [by exists err|]. do 3 (split; [done|]).
    intros c a. destruct Hw as [_ ->]. unfold apply_puts. simpl.
    apply lookup_insert_ne, not_eq_sym, accountKey_transactionKey.
  - right. right. split; [by exists err|]. split; [done|]. by destruct Hw as [_ ->].
Qed.

(** *** Accounts in the store *)

Lemma bytesToAccount_AccountJSON (a : Account) : bytesToAccount (AccountJSON a) = a.
Proof. reflexivity. Qed.

Lemma has_account_source (w : World) (t : Transfer) (a : Account) :
  has_account w (FromCustomerID t) (FromAccountID t) a -> sourceOf t w = Some a.
Proof. intros (Hs & _). unfold sourceOf. by rewrite Hs. Qed.

Lemma has_account_dest (w : World) (t : Transfer) (a : Account) :
  has_account w (ToCustomerID t) (ToAccountID t) a -> destOf t w = Some a.
Proof. intros (Hs & _). unfold destOf. by rewrite Hs. Qed.

(** What a completed transfer leaves in the store. *)
Lemma TransferMoney_completed (data : string) (w : World) (src dst : Account) :
  let t := unmarshalTransfer data in
  Validate t = None ->
  has_account w (FromCustomerID t) (FromAccountID t) src ->
  has_account w (ToCustomerID t) (ToAccountID t) dst ->
  accountKey (FromCustomerID t) (FromAccountID t)
    <> accountKey (ToCustomerID t) (ToAccountID t) ->
  Closed src = false -> Closed dst = false ->
  0 <= Int64.sub (Balance src) (Amount t) ->
  answer (TransferMoney [data]) w = Return None
  /\ has_account (after (TransferMoney [data]) w) (FromCustomerID t) (FromAccountID t)
       (Debit src (Int64.add (Amount t) (Fee t)))
  /\ has_account (after (TransferMoney [data]) w) (ToCustomerID t) (ToAccountID t)
       (Credit dst (Amount t)).
Proof.
  intros t Hval Hsrc Hdst Hkeys Hcs Hcd Hfloor.
  pose proof (has_account_source _ _ _ Hsrc) as Hs.
  pose proof (has_account_dest _ _ _ Hdst) as Hd.
  destruct Hsrc as (_ & Hsc & Hsi). destruct Hdst as (_ & Hdc & Hdi).
  destruct (TransferMoney_cases [data] w) as (ws & [_ Hst] & Hout).
  destruct Hout as [t' src' dst' Ht' _ Hs' Hd' _ _ _ Hr Hws |
                    t' src' dst' on code err Ht' _ Hs' Hd' Hwhy _ _ |
                    err Hwhy _ _].
  - injection Ht' as <-. fold t in Hs', Hd'.
    rewrite Hs in Hs'. rewrite Hd in Hd'. injection Hs' as <-. injection Hd' as <-.
    split; [done|]. unfold has_account. rewrite Hst, Hws. unfold apply_puts. simpl.
    rewrite Hsc, Hsi, Hdc, Hdi.
    split; (split; [|done]).
    + rewrite lookup_insert_ne by (apply not_eq_sym, accountKey_transactionKey).
      rewrite lookup_insert_ne by (by apply not_eq_sym).
      rewrite lookup_insert_ne by (apply not_eq_sym, accountKey_transactionKey).
      by rewrite lookup_insert_eq.
    + rewrite lookup_insert_ne by (apply not_eq_sym, accountKey_transactionKey).
      by rewrite lookup_insert_eq.
  - injection Ht' as <-. fold t in Hs', Hd'.
    rewrite Hs in Hs'. rewrite Hd in Hd'. injection Hs' as <-. injection Hd' as <-.
    destruct Hwhy as [(? & _) | [(_ & ? & _) | (_ & _ & ? & _)]];
      [congruence..|unfold t in *; lia].
  - destruct Hwhy as [? | (t' & Ht' & Hwhy)]; [done|].
    injection Ht' as <-. fold t in Hwhy.
    destruct Hwhy as [? | [? | (_ & ?)]]; congruence.
Qed.

Lemma Validate_amount (t : Transfer) : Validate t = None -> 0 < Amount t.
Proof.
  unfold Validate. destruct (0 <? Amount t) eqn:Hpos; simpl; [|done].
  intros _. by apply Z.ltb_lt.
Qed.

Lemma Validate_distinct (t : Transfer) :
  Validate t = None ->
  [FromCustomerID t; FromAccountID t] <> [ToCustomerID t; ToAccountID t].
Proof.
  unfold Validate. destruct (negb (0 <? Amount t)); [done|].
  destruct (_ || _); [done|].
  destruct (String.eqb_spec (FromCustomerID t) (ToCustomerID t)) as [Hc|Hc];
    destruct (String.eqb_spec (FromAccountID t) (ToAccountID t)) as [Ha|Ha];
    simpl; intros Hv Heq; simplify_eq.
Qed.

(** C2, amended: an accepted transfer leaves the source account with its
    balance less [amount + fee] and the destination account with its
    balance plus [amount], in [int64] arithmetic; whenever these results
    are representable they are the exact differences and sums, and the fee
    is not credited to the destination. *)
Theorem TransferMoney_balances (data : string) (w : World) (src dst : Account) :
  let t := unmarshalTransfer data in
  Validate t = None ->
  has_account w (FromCustomerID t) (FromAccountID t) src ->
  has_account w (ToCustomerID t) (ToAccountID t) dst ->
  Closed src = false -> Closed dst = false ->
  0 <= Int64.sub (Balance src) (Amount t) ->
  exists src' dst',
    has_account (after (TransferMoney [data]) w) (FromCustomerID t) (FromAccountID t) src'
    /\ has_account (after (TransferMoney [data]) w) (ToCustomerID t) (ToAccountID t) dst'
    /\ Balance src' = Int64.wrap (Balance src - (Amount t + Fee t))
    /\ Balance dst' = Int64.wrap (Balance dst + Amount t)
    /\ (Int64.in_range (Balance src - (Amount t + Fee t)) ->
        Balance src' = Balance src - (Amount t + Fee t))
    /\ (Int64.in_range (Balance dst + Amount t) ->
        Balance dst' = Balance dst + Amount t).
Proof.
  intros t Hval Hsrc Hdst Hcs Hcd Hfloor.
  assert (Hkeys : accountKey (FromCustomerID t) (FromAccountID t)
                  <> accountKey (ToCustomerID t) (ToAccountID t)).
  { intros Heq. destruct Hsrc as (Hs & Hsc & Hsi). destruct Hdst as (Hd & Hdc & Hdi).
    rewrite Heq, Hd in Hs. injection Hs as Hsame.
    apply (Validate_distinct t Hval). congruence. }
  destruct (TransferMoney_completed data w src dst Hval Hsrc Hdst Hkeys Hcs Hcd Hfloor)
    as (_ & Hs' & Hd').
  exists (Debit src (Int64.add (Amount t) (Fee t))), (Credit dst (Amount t)).
  split; [done|]. split; [done|]. simpl. unfold Int64.sub, Int64.add.
  rewrite Int64_wrap_wrap_sub.
  split; [done|]. split; [done|]. split; intros Hr; by apply Int64_wrap_small.
Qed.

(** With identifiers that hold no separator, a valid transfer addresses
    two different keys. *)
Lemma Validate_distinct_keys (t : Transfer) :
  Validate t = None ->
  attrs_free [FromCustomerID t; FromAccountID t] ->
  attrs_free [ToCustomerID t; ToAccountID t] ->
  accountKey (FromCustomerID t) (FromAccountID t)
    <> accountKey (ToCustomerID t) (ToAccountID t).
Proof.
  intros Hv Hf Ht Heq. apply (Validate_distinct t Hv).
  by eapply createCompositeKey_inj.
Qed.

(** C9: a transfer whose source balance covers the amount but not the
    amount plus a positive fee is accepted, and the stored source balance
    becomes [balance - amount - fee], which is negative. *)
Theorem TransferMoney_fee_overdraft (data : string) (w : World) (src dst : Account) :
  let t := unmarshalTransfer data in
  Validate t = None ->
  has_account w (FromCustomerID t) (FromAccountID t) src ->
  has_account w (ToCustomerID t) (ToAccountID t) dst ->
  accountKey (FromCustomerID t) (FromAccountID t)
    <> accountKey (ToCustomerID t) (ToAccountID t) ->
  Closed src = false -> Closed dst = false ->
  Int64.in_range (Balance src) -> Int64.in_range (Amount t) -> Int64.in_range (Fee t) ->
  0 < Fee t -> Amount t <= Balance src -> Balance src < Amount t + Fee t ->
  answer (TransferMoney [data]) w = Return None
  /\ exists src',
       has_account (after (TransferMoney [data]) w) (FromCustomerID t) (FromAccountID t) src'
       /\ Balance src' = Balance src - Amount t - Fee t
       /\ Balance src' < 0.
Proof.
  intros t Hval Hsrc Hdst Hkeys Hcs Hcd Hb Ha Hf Hfee Hge Hlt.
  pose proof (Validate_amount t Hval) as Hpos.
  assert (Hfloor : 0 <= Int64.sub (Balance src) (Amount t)).
  { unfold Int64.sub. rewrite Int64_wrap_small; [lia|].
    unfold Int64.in_range, Int64.min_int, Int64.max_int in *. lia. }
  destruct (TransferMoney_completed data w src dst Hval Hsrc Hdst Hkeys Hcs Hcd Hfloor)
    as (Hr & Hs' & _).
  split; [done|]. eexists. split; [exact Hs'|]. simpl.
  unfold Int64.sub, Int64.add. rewrite Int64_wrap_wrap_sub.
  rewrite Int64_wrap_small.
  - fold t. lia.
  - fold t. unfold Int64.in_range, Int64.min_int, Int64.max_int in *. lia.
Qed.

(** What a rejected transfer leaves in the store: one Failed transaction
    on the account the check is about, and every account as it was. *)
Lemma TransferMoney_rejected (data : string) (w : World) (src dst : Account) :
  let t := unmarshalTransfer data in
  Validate t = None ->
  has_account w (FromCustomerID t) (FromAccountID t) src ->
  has_account w (ToCustomerID t) (ToAccountID t) dst ->
  Closed src = true \/ Closed dst = true \/ Int64.sub (Balance src) (Amount t) < 0 ->
  let on := if Closed src then src else if Closed dst then dst else src in
  let code := if Closed src || Closed dst then AccountClosed else InsufficientFunds in
  (exists err, answer (TransferMoney [data]) w = Error err)
  /\ wrote w (after (TransferMoney [data]) w)
       [transactionWrite (CreateTransaction (clock w) (CustomerID on) (ID on) t code Failed)]
  /\ (forall c a, state (after (TransferMoney [data]) w) !! accountKey c a
                  = state w !! accountKey c a).
Proof.
  intros t Hval Hsrc Hdst Hwhy on code.
  pose proof (has_account_source _ _ _ Hsrc) as Hs.
  pose proof (has_account_dest _ _ _ Hdst) as Hd.
  destruct (TransferMoney_cases [data] w) as (ws & Hw & Hout).
  destruct Hout as [t' src' dst' Ht' _ Hs' Hd' Hos Hod Hfl _ _ |
                    t' src' dst' on' code' err Ht' _ Hs' Hd' Hwhy' Hr Hws |
                    err Hwhy' _ _].
  - injection Ht' as <-. fold t in Hs', Hd', Hfl.
    rewrite Hs in Hs'. rewrite Hd in Hd'. injection Hs' as <-. injection Hd' as <-.
    destruct Hwhy as [? | [? | ?]]; [congruence.. | lia].
  - injection Ht' as <-. fold t in Hs', Hd', Hwhy', Hws.
    rewrite Hs in Hs'. rewrite Hd in Hd'. injection Hs' as <-. injection Hd' as <-.
    assert (Hon : on' = on /\ code' = code).
    { subst on code.
      destruct Hwhy' as [(-> & -> & ->) | [(-> & -> & -> & ->) | (-> & -> & _ & -> & ->)]];
        done. }
    destruct Hon as [-> ->]. subst ws.
    split; [by exists err|]. split; [done|].
    intros c a. destruct Hw as [_ ->]. unfold apply_puts. simpl.
    apply lookup_insert_ne, not_eq_sym, accountKey_transactionKey.
  - destruct Hwhy' as [? | (t' & Ht' & Hwhy')]; [done|].
    injection Ht' as <-. fold t in Hwhy'.
    destruct Hwhy' as [? | [? | (_ & ?)]]; congruence.
Qed.

(** X1: a valid transfer between stored open accounts whose source
    balance is below the amount is refused with InsufficientFunds whenever
    the subtraction [balance - amount] stays within [int64]: one Failed
    transaction is recorded on the source and both accounts stay as
    stored. *)
Theorem TransferMoney_insufficient_funds (data : string) (w : World) (src dst : Account) :
  let t := unmarshalTransfer data in
  Validate t = None ->
  has_account w (FromCustomerID t) (FromAccountID t) src ->
  has_account w (ToCustomerID t) (ToAccountID t) dst ->
  Closed src = false -> Closed dst = false ->
  Int64.in_range (Balance src - Amount t) ->
  Balance src < Amount t ->
  answer (TransferMoney [data]) w
    = Error (Errorf "Insufficient funds available in account %s" (FromAccountID t))
  /\ wrote w (after (TransferMoney [data]) w)
       [transactionWrite
          (CreateTransaction (clock w) (CustomerID src) (ID src) t InsufficientFunds Failed)]
  /\ has_account (after (TransferMoney [data]) w) (FromCustomerID t) (FromAccountID t) src
  /\ has_account (after (TransferMoney [data]) w) (ToCustomerID t) (ToAccountID t) dst.
Proof.
  intros t Hval Hsrc Hdst Hcs Hcd Hrange Hlt.
  assert (Hneg : Int64.sub (Balance src) (Amount t) < 0).
  { unfold Int64.sub. rewrite Int64_wrap_small by done. lia. }
  destruct (TransferMoney_rejected data w src dst Hval Hsrc Hdst) as (_ & Hw & Hkeep).
  { by right; right. }
  fold t in Hw. rewrite Hcs, Hcd in Hw. cbv beta iota delta [orb] in Hw.
  split; [|split; [exact Hw|]].
  - unfold answer, TransferMoney. fold t. rewrite Hval.
    unfold mbind, M_bind, mret, M_ret, GetAccount, GetState. simpl.
    destruct Hsrc as (-> & _). destruct Hdst as (-> & _). simpl.
    rewrite !bytesToAccount_AccountJSON, Hcs, Hcd.
    apply Z.ltb_lt in Hneg. by rewrite Hneg.
  - unfold has_account. rewrite !Hkeep. done.
Qed.

(** X2: a valid transfer with a closed source or destination account is
    refused: the error names the closed account (the source first), one
    Failed transaction with code AccountClosed is recorded on it, and
    every account key keeps its document. *)
Theorem TransferMoney_closed_account (data : string) (w : World) (src dst : Account) :
  let t := unmarshalTransfer data in
  Validate t = None ->
  has_account w (FromCustomerID t) (FromAccountID t) src ->
  has_account w (ToCustomerID t) (ToAccountID t) dst ->
  Closed src = true \/ Closed dst = true ->
  answer (TransferMoney [data]) w
    = Error (if Closed src
             then Errorf "Cannot transfer money from closed account %s" (FromAccountID t)
             else Errorf "Cannot transfer money into closed account %s" (ToAccountID t))
  /\ wrote w (after (TransferMoney [data]) w)
       [transactionWrite
          (CreateTransaction (clock w)
             (CustomerID (if Closed src then src else dst))
             (ID (if Closed src then src else dst)) t AccountClosed Failed)]
  /\ (forall c a, state (after (TransferMoney [data]) w) !! accountKey c a
                  = state w !! accountKey c a).
Proof.
  intros t Hval Hsrc Hdst Hclosed.
  destruct (TransferMoney_rejected data w src dst Hval Hsrc Hdst) as (_ & Hw & Hkeep).
  { tauto. }
  fold t in Hw. split; [|split; [|exact Hkeep]].
  - unfold answer, TransferMoney. fold t. rewrite Hval.
    unfold mbind, M_bind, mret, M_ret, GetAccount, GetState. simpl.
    destruct Hsrc as (-> & _). destruct Hdst as (-> & _). simpl.
    rewrite !bytesToAccount_AccountJSON.
    destruct (Closed src); [done|].
    destruct Hclosed as [?| ->]; done.
  - destruct (Closed src) eqn:Hcs; [exact Hw|].
    destruct Hclosed as [?|Hcd]; [done|]. rewrite Hcd in Hw. exact Hw.
Qed.

End Transfer_engine.

(** ** The account ledger *)

Section Account_ledger.

Context `{Model}.

(** C8: closing an existing account stores it with [closed = true], and
    closing it again returns the same reply, re-writes the same record and
    leaves the state as the first call left it; closing an account that
    is not stored returns the not-found error and writes nothing. *)
Theorem CloseAccount_idempotent (w : World) (customerID accountID : string) :
  (forall account, has_account w customerID accountID account ->
     let w1 := after (CloseAccount [customerID; accountID]) w in
     let w2 := after (CloseAccount [customerID; accountID]) w1 in
     answer (CloseAccount [customerID; accountID]) w
       = Return (Some (AccountJSON (setClosed account)))
     /\ has_account w1 customerID accountID (setClosed account)
     /\ answer (CloseAccount [customerID; accountID]) w1
        = answer (CloseAccount [customerID; accountID]) w
     /\ wrote w1 w2 [accountWrite (setClosed account)]
     /\ state w2 = state w1)
  /\ (state w !! accountKey customerID accountID = None ->
      answer (CloseAccount [customerID; accountID]) w
        = Error (Errorf "Account with number %s not found." accountID)
      /\ after (CloseAccount [customerID; accountID]) w = w).
Proof.
  split.
  - intros account (Hst & Hc & Hi) w1 w2.
    assert (Hfirst : CloseAccount [customerID; accountID] w
              = (Return (Some (AccountJSON (setClosed account))),
                 {| state := <[accountKey customerID accountID :=
                                 AccountJSON (setClosed account)]> (state w);
                    puts := puts w ++ [accountWrite (setClosed account)];
                    clock := clock w |})).
    { unfold CloseAccount, mbind, M_bind, mret, M_ret, GetAccount, GetState, PutState.
      simpl. rewrite Hst. simpl. rewrite bytesToAccount_AccountJSON.
      unfold accountWrite. simpl. by rewrite Hc, Hi. }
    assert (Hw1 : state w1 !! accountKey customerID accountID
                  = Some (AccountJSON (setClosed account))).
    { unfold w1, after. rewrite Hfirst. simpl. apply lookup_insert_eq. }
    assert (Hsecond : CloseAccount [customerID; accountID] w1
              = (Return (Some (AccountJSON (setClosed account))),
                 {| state := <[accountKey customerID accountID :=
                                 AccountJSON (setClosed account)]> (state w1);
                    puts := puts w1 ++ [accountWrite (setClosed account)];
                    clock := clock w1 |})).
    { unfold CloseAccount, mbind, M_bind, mret, M_ret, GetAccount, GetState, PutState.
      simpl. rewrite Hw1. simpl. rewrite bytesToAccount_AccountJSON.
      unfold accountWrite. simpl. by rewrite Hc, Hi. }
    unfold answer. rewrite Hsecond, Hfirst. simpl.
    split; [done|]. split; [done|]. split; [done|]. split.
    + unfold w2, after. rewrite Hsecond. split; simpl; [done|].
      unfold apply_puts, accountWrite. simpl. by rewrite Hc, Hi.
    + unfold w2, after. rewrite Hsecond. simpl. by apply insert_id.
  - intros Hnone.
    unfold answer, after, CloseAccount, mbind, M_bind, mret, M_ret, GetAccount, GetState.
    simpl. by rewrite Hnone.
Qed.

(** C10: [OpenAccount] makes no existence check; on a state that already
    holds an account under the key of a well-formed payload it succeeds
    and the stored record becomes the payload's account, balance and
    closed flag included. *)
Theorem OpenAccount_overwrites (w : World) (data : string) (account old : Account) :
  CreateAccount data = Some account ->
  state w !! accountKey (CustomerID account) (ID account) = Some (AccountJSON old) ->
  answer (OpenAccount [data]) w = Return (Some (AccountJSON account))
  /\ wrote w (after (OpenAccount [data]) w) [accountWrite account]
  /\ has_account (after (OpenAccount [data]) w) (CustomerID account) (ID account) account.
Proof.
  intros Hcreate _.
  unfold answer, after, OpenAccount, mbind, M_bind, mret, M_ret, PutState.
  rewrite Hcreate. simpl. split; [done|]. split; [done|].
  split; [apply lookup_insert_eq | done].
Qed.

(** What [TopupAccount] does on a stored account. *)
Lemma TopupAccount_run (w : World) (customerID accountID amountArg : string)
    (account : Account) :
  has_account w customerID accountID account ->
  TopupAccount [customerID; accountID; amountArg] w
  = match strconv.ParseInt amountArg with
    | None => (Error (Errorf "Error parsing amount value %s" amountArg), w)
    | Some amount =>
        (Return (Some (AccountJSON (Credit account amount))),
         {| state := <[accountKey customerID accountID :=
                         AccountJSON (Credit account amount)]> (state w);
            puts := puts w ++ [accountWrite (Credit account amount)];
            clock := clock w |})
    end.
Proof.
  intros (Hst & Hc & Hi).
  unfold TopupAccount, mbind, M_bind, mret, M_ret, GetAccount, GetState, PutState.
  simpl. rewrite Hst. simpl. rewrite bytesToAccount_AccountJSON.
  destruct (strconv.ParseInt amountArg) as [amount|]; [|done].
  unfold accountWrite. simpl. by rewrite Hc, Hi.
Qed.

(** X13: the only guard of [TopupAccount] on its amount argument is
    [strconv.ParseInt].  The call fails, writing nothing, whenever the
    argument is not a well-formed decimal [int64], and on a stored account
    the error is the parse error; on a stored account and a well-formed
    amount it replies with the account credited by that amount and stores
    it, in one write. *)
Theorem TopupAccount_amount (w : World) (customerID accountID amountArg : string) :
  (strconv.ParseInt amountArg = None ->
     (exists err, answer (TopupAccount [customerID; accountID; amountArg]) w = Error err)
     /\ after (TopupAccount [customerID; accountID; amountArg]) w = w)
  /\ (forall account, has_account w customerID accountID account ->
        strconv.ParseInt amountArg = None ->
        answer (TopupAccount [customerID; accountID; amountArg]) w
          = Error (Errorf "Error parsing amount value %s" amountArg))
  /\ (forall account amount, has_account w customerID accountID account ->
        strconv.ParseInt amountArg = Some amount ->
        answer (TopupAccount [customerID; accountID; amountArg]) w
          = Return (Some (AccountJSON (Credit account amount)))
        /\ wrote w (after (TopupAccount [customerID; accountID; amountArg]) w)
             [accountWrite (Credit account amount)]
        /\ has_account (after (TopupAccount [customerID; accountID; amountArg]) w)
             customerID accountID (Credit account amount)
        /\ Balance (Credit account amount) = Int64.wrap (Balance account + amount)).
Proof.
  split; [|split].
  - intros Hparse.
    unfold answer, after, TopupAccount, mbind, M_bind, mret, M_ret, GetAccount, GetState.
    simpl. destruct (state w !! accountKey customerID accountID); simpl.
    + rewrite Hparse. split; [by eexists | done].
    + split; [by eexists | done].
  - intros account Hacc Hparse. unfold answer.
    by rewrite (TopupAccount_run _ _ _ _ _ Hacc), Hparse.
  - intros account amount Hacc Hparse. unfold answer, after.
    rewrite (TopupAccount_run _ _ _ _ _ Hacc), Hparse.
    destruct Hacc as (Hst & Hc & Hi). simpl. split; [done|]. split.
    + split; simpl; [done|]. unfold apply_puts, accountWrite. simpl. by rewrite Hc, Hi.
    + split; [|done]. split; [apply lookup_insert_eq | done].
Qed.

End Account_ledger.

(** ** Prefix scans *)

Lemma ascii_compare_refl (c : ascii) : Ascii.compare c c = Eq.
Proof. unfold Ascii.compare. apply N.compare_refl. Qed.

Lemma leb_nil_l (k : string) : String.leb "" k = true.
Proof. by destruct k. Qed.

(** The keys of the range from [p] to [p] followed by [e] are the keys
    [p +:+ r] whose remainder [r] sorts below [e]. *)
Lemma in_scan_append (p e k : string) :
  in_scan p (p +:+ e) k = true <-> exists r, k = p +:+ r /\ String.ltb r e = true.
Proof.
  revert k. induction p as [|c p IH]; intros k.
  - unfold in_scan. rewrite leb_nil_l, append_nil_l. simpl. split.
    + intros Hlt. by exists k.
    + by intros (r & -> & Hlt).
  - destruct k as [|d k].
    + split; [done|]. by intros (r & Hr & _).
    + specialize (IH k). unfold in_scan, String.leb, String.ltb in *.
      rewrite append_cons. simpl.
      destruct (Ascii.compare c d) eqn:Hcd.
      * apply Ascii.compare_eq_iff in Hcd as ->. rewrite ascii_compare_refl.
        rewrite IH. split.
        -- intros (r & -> & Hlt). by exists r.
        -- intros (r & Hr & Hlt). rewrite append_cons in Hr.
           injection Hr as ->. by exists r.
      * rewrite (Ascii.compare_antisym d c), Hcd. simpl. split; [done|].
        intros (r & Hr & _). rewrite append_cons in Hr. injection Hr as -> _.
        by rewrite ascii_compare_refl in Hcd.
      * split; [done|].
        intros (r & Hr & _). rewrite append_cons in Hr. injection Hr as -> _.
        by rewrite ascii_compare_refl in Hcd.
Qed.

Section Prefix_scan.

Context `{Model}.

Lemma accountKey_partialKey (c a : string) :
  accountKey c a = partialKey c +:+ (a +:+ minKeyValue).
Proof.
  unfold accountKey, partialKey.
  rewrite (createCompositeKey_app AccountObjectType [c] [a]). simpl.
  by rewrite append_nil_r.
Qed.

Lemma partialKey_accountKey (c c' a : string) :
  sentinel_free c = true -> sentinel_free c' = true -> sentinel_free a = true ->
  String.prefix (partialKey c) (accountKey c' a) = true -> c' = c.
Proof.
  intros Hc Hc' Ha Hp.
  apply createCompositeKey_prefix in Hp; [| by repeat constructor..].
  by apply prefix_cons_inv_1 in Hp.
Qed.

Lemma partialKey_transactionKey (c c' a i : string) :
  String.prefix (partialKey c) (transactionKey c' a i) = false.
Proof.
  apply not_true_is_false. intros Hp.
  unfold partialKey, transactionKey in Hp. rewrite !createCompositeKey_segments in Hp.
  apply prefix_segment in Hp as [Htag _];
    [| apply AccountObjectType_free | apply TransactionObjectType_free].
  by apply ObjectTypes_distinct.
Qed.

(** The scan of a customer's partial key meets exactly the accounts of
    that customer. *)
Lemma scan_hits (st : gmap string bytes) (c k : string) (d : bytes) :
  ledger_ok st -> sentinel_free c = true -> st !! k = Some d ->
  in_scan (partialKey c) (partialKey c +:+ MaxRune) k = true
  <-> exists a, d = AccountJSON a /\ k = accountKey c (ID a) /\ CustomerID a = c.
Proof.
  intros Hok Hc Hk. rewrite in_scan_append. split.
  - intros (r & Hr & _).
    assert (Hp : String.prefix (partialKey c) k = true)
      by (rewrite Hr; apply str_prefix_append_r).
    destruct (Hok k d Hk) as [(a & -> & Hka & Hca & Hia & _) | (t & -> & Hkt)].
    + exists a. rewrite Hka in Hp.
      apply partialKey_accountKey in Hp; [|done..]. by rewrite Hka, Hp.
    + rewrite Hkt in Hp. by rewrite partialKey_transactionKey in Hp.
  - intros (a & -> & Hka & Hca).
    destruct (Hok k _ Hk) as [(a' & Heq & _ & _ & _ & Hsafe) | (t & Heq & _)]; [|done].
    injection Heq as <-. exists (ID a +:+ minKeyValue).
    split; [by rewrite Hka, accountKey_partialKey | exact Hsafe].
Qed.

Lemma json_Unmarshal_Account_total (d : bytes) :
  json_Unmarshal_Account d = Some (bytesToAccount d).
Proof. by destruct d. Qed.

Lemma omap_total {A B : Type} (f : A -> option B) (g : A -> B) (l : list A) :
  (forall x, f x = Some (g x)) -> omap f l = g <$> l.
Proof.
  intros Hf. induction l as [|x l IH]; [done|].
  csimpl. rewrite Hf. csimpl. by rewrite IH.
Qed.

(** On a well-kept ledger [GetAccountList] returns, without repetition,
    exactly the accounts stored for the customer. *)
Lemma GetAccountList_stored (w : World) (c : string) :
  ledger_ok (state w) -> sentinel_free c = true ->
  exists l, answer (GetAccountList [c]) w = Return (Some (AccountListJSON l))
            /\ NoDup l
            /\ (forall a, a ∈ l <-> has_account w c (ID a) a).
Proof.
  intros Hok Hc.
  unfold answer, GetAccountList, partialCompositeKeyQuery, RangeQueryState,
    mbind, M_bind, mret, M_ret. simpl.
  fold (partialKey c).
  set (L := merge_sort key_le _).
  assert (HL : forall kv, kv ∈ L <->
            in_scan (partialKey c) (partialKey c +:+ MaxRune) kv.1 = true
            /\ state w !! kv.1 = Some kv.2).
  { intros [k d]. unfold L. rewrite merge_sort_Permutation, list_elem_of_filter.
    by rewrite elem_of_map_to_list. }
  assert (HLacc : forall kv, kv ∈ L ->
            exists a, kv = (accountKey c (ID a), AccountJSON a) /\ CustomerID a = c).
  { intros [k d] [Hin Hst]%HL. simpl in *.
    apply (scan_hits _ c k d Hok Hc Hst) in Hin as (a & -> & -> & Hca). by exists a. }
  assert (HND : NoDup L).
  { unfold L. rewrite merge_sort_Permutation. apply NoDup_filter, NoDup_map_to_list. }
  rewrite (omap_total _ (fun kv => bytesToAccount kv.2))
    by (intros kv; apply json_Unmarshal_Account_total).
  eexists. split; [reflexivity|]. split.
  - apply NoDup_fmap_2_strong; [|done].
    intros x y Hx Hy Heq.
    destruct (HLacc x Hx) as (a & -> & _). destruct (HLacc y Hy) as (b & -> & _).
    simpl in Heq. rewrite !bytesToAccount_AccountJSON in Heq. by subst.
  - intros a. rewrite list_elem_of_fmap. split.
    + intros (kv & -> & Hkv). destruct (HLacc kv Hkv) as (b & -> & Hcb).
      simpl. rewrite bytesToAccount_AccountJSON.
      apply HL in Hkv as [_ Hst]. simpl in Hst. done.
    + intros (Hst & Hca & _). exists (accountKey c (ID a), AccountJSON a).
      split; [done|]. apply HL. simpl. split; [|done].
      apply (scan_hits _ c _ _ Hok Hc Hst). by exists a.
Qed.

Lemma openAll_state (datas : list string) (accs : list Account) (w : World) :
  Forall2 (fun data a => CreateAccount data = Some a) datas accs ->
  state (openAll datas w)
  = foldl (fun st a => <[accountKey (CustomerID a) (ID a) := AccountJSON a]> st)
          (state w) accs.
Proof.
  intros HF. revert w. induction HF as [|data a datas accs Hc _ IH]; intros w; [done|].
  simpl. rewrite IH. f_equal.
  unfold after, OpenAccount, mbind, M_bind, mret, M_ret, PutState. by rewrite Hc.
Qed.

Lemma accountKeys_NoDup (accs : list Account) :
  Forall ids_ok accs ->
  NoDup ((fun a => (CustomerID a, ID a)) <$> accs) ->
  NoDup ((fun a => accountKey (CustomerID a) (ID a)) <$> accs).
Proof.
  intros Hok Hnd. apply NoDup_fmap_1 in Hnd as Hnd'.
  apply NoDup_fmap_2_strong; [|done].
  intros a b Ha Hb Heq.
  rewrite Forall_forall in Hok.
  destruct (Hok a Ha) as (Hac & Hai & _). destruct (Hok b Hb) as (Hbc & Hbi & _).
  apply createCompositeKey_inj in Heq; [| by repeat constructor..].
  injection Heq as Hc Hi.
  assert (Hpair : (fun a => (CustomerID a, ID a)) a = (fun a => (CustomerID a, ID a)) b)
    by (simpl; congruence).
  revert Hpair. clear -Hnd Ha Hb.
  induction accs as [|x accs IH]; [by apply elem_of_nil in Ha|].
  rewrite fmap_cons in Hnd. apply NoDup_cons in Hnd as [Hx Hnd].
  apply elem_of_cons in Ha as [->|Ha]; apply elem_of_cons in Hb as [->|Hb]; intros Hpair.
  - done.
  - exfalso. apply Hx. rewrite Hpair.
    by apply (list_elem_of_fmap_2 (fun a => (CustomerID a, ID a))).
  - exfalso. apply Hx. rewrite <- Hpair.
    by apply (list_elem_of_fmap_2 (fun a => (CustomerID a, ID a))).
  - by apply IH.
Qed.

(** The store after opening accounts with pairwise different keys holds
    exactly these accounts, each under its key. *)
Lemma opened_state (accs : list Account) (k : string) (d : bytes) :
  NoDup ((fun a => accountKey (CustomerID a) (ID a)) <$> accs) ->
  foldl (fun st a => <[accountKey (CustomerID a) (ID a) := AccountJSON a]> st)
        (∅ : gmap string bytes) accs !! k = Some d
  <-> exists a, a ∈ accs /\ k = accountKey (CustomerID a) (ID a) /\ d = AccountJSON a.
Proof.
  induction accs as [|a accs IH] using rev_ind; intros Hnd.
  - simpl. rewrite lookup_empty. split; [done|].
    intros (a & Ha & _). by apply elem_of_nil in Ha.
  - rewrite fmap_app in Hnd. apply NoDup_app in Hnd as (Hnd & Hfresh & _).
    rewrite foldl_app. simpl.
    destruct (decide (accountKey (CustomerID a) (ID a) = k)) as [<-|Hne].
    + rewrite lookup_insert_eq. split.
      * intros [= <-]. exists a. split; [|done]. apply elem_of_app. right.
        by apply list_elem_of_singleton.
      * intros (b & Hb & Hkey & ->). f_equal.
        apply elem_of_app in Hb as [Hb|Hb%list_elem_of_singleton]; [|by subst].
        exfalso. apply (Hfresh (accountKey (CustomerID a) (ID a))).
        -- rewrite Hkey.
           by apply (list_elem_of_fmap_2 (fun a => accountKey (CustomerID a) (ID a))).
        -- simpl. by apply list_elem_of_singleton.
    + rewrite lookup_insert_ne by done. rewrite (IH Hnd). split.
      * intros (b & Hb & ? & ?). exists b. split; [|done]. apply elem_of_app. by left.
      * intros (b & Hb & Hkey & ->).
        apply elem_of_app in Hb as [Hb|Hb%list_elem_of_singleton]; [by exists b|].
        subst b. done.
Qed.

(** C5, amended: after the accounts of a list with pairwise different
    identifiers have been opened, all identifiers free of the separator
    and every account identifier sorting below the maximum rune when
    followed by the separator, [GetAccountList] returns for a customer
    exactly the opened accounts of that customer, each once, and no
    account of another customer. *)
Theorem GetAccountList_opened (datas : list string) (accs : list Account) (c : string) :
  Forall2 (fun data a => CreateAccount data = Some a) datas accs ->
  Forall ids_ok accs ->
  NoDup ((fun a => (CustomerID a, ID a)) <$> accs) ->
  sentinel_free c = true ->
  exists l,
    answer (GetAccountList [c]) (openAll datas emptyWorld) = Return (Some (AccountListJSON l))
    /\ l ≡ₚ filter (fun a => CustomerID a = c) accs.
Proof.
  intros Hdec Hids Hnd Hc.
  pose proof (accountKeys_NoDup accs Hids Hnd) as Hkeys.
  pose proof (openAll_state datas accs emptyWorld Hdec) as Hst. simpl in Hst.
  assert (Hok : ledger_ok (state (openAll datas emptyWorld))).
  { intros k d Hk. rewrite Hst in Hk. apply (opened_state accs k d Hkeys) in Hk
      as (a & Ha & -> & ->).
    left. exists a. split; [done|]. split; [done|].
    rewrite Forall_forall in Hids. by apply Hids. }
  destruct (GetAccountList_stored _ c Hok Hc) as (l & Hl & Hndl & Hmem).
  exists l. split; [done|].
  apply NoDup_Permutation; [done| |].
  { apply NoDup_filter. by apply NoDup_fmap_1 in Hnd. }
  intros a. rewrite Hmem, list_elem_of_filter. unfold has_account. rewrite Hst.
  rewrite (opened_state accs _ _ Hkeys). split.
  - intros ((b & Hb & _ & [= <-]) & Hca & _). done.
  - intros (Hca & Ha). split; [|done]. exists a. by rewrite Hca.
Qed.

End Prefix_scan.

(** ** The ledger invariant *)

Section Ledger_invariant.

Context `{Model}.

Lemma ledger_ok_empty : ledger_ok ∅.
Proof. intros k d Hk. by rewrite lookup_empty in Hk. Qed.

Lemma ledger_ok_account (st : gmap string bytes) (a : Account) :
  ledger_ok st -> ids_ok a ->
  ledger_ok (<[accountKey (CustomerID a) (ID a) := AccountJSON a]> st).
Proof.
  intros Hok Ha k d Hk.
  destruct (decide (accountKey (CustomerID a) (ID a) = k)) as [<-|Hne].
  - rewrite lookup_insert_eq in Hk. injection Hk as <-. left. by exists a.
  - rewrite lookup_insert_ne in Hk by done. by apply Hok.
Qed.

Lemma ledger_ok_transaction (st : gmap string bytes) (t : Transaction) :
  ledger_ok st ->
  ledger_ok (<[transactionKey (TxCustomerID t) (TxAccountID t) (TxID t)
               := TransactionJSON t]> st).
Proof.
  intros Hok k d Hk.
  destruct (decide (transactionKey (TxCustomerID t) (TxAccountID t) (TxID t) = k))
    as [<-|Hne].
  - rewrite lookup_insert_eq in Hk. injection Hk as <-. right. by exists t.
  - rewrite lookup_insert_ne in Hk by done. by apply Hok.
Qed.

(** On a well-kept ledger, what is found under an account key is an
    account with good identifiers, stored under its own key. *)
Lemma ledger_ok_lookup (st : gmap string bytes) (c i : string) (d : bytes) :
  ledger_ok st -> st !! accountKey c i = Some d ->
  exists a, d = AccountJSON a /\ accountKey (CustomerID a) (ID a) = accountKey c i
            /\ ids_ok a.
Proof.
  intros Hok Hk. destruct (Hok _ _ Hk) as [(a & -> & Hkey & Ha) | (t & _ & Hkey)].
  - by exists a.
  - by apply accountKey_transactionKey in Hkey.
Qed.

Lemma OpenAccount_ledger_ok (args : list string) (w : World) :
  ledger_ok (state w) ->
  call_ok (CallOpenAccount args) ->
  ledger_ok (state (after (OpenAccount args) w)).
Proof.
  intros Hok Hids. unfold after, OpenAccount. destruct args as [|data rest]; [done|].
  destruct (CreateAccount data) as [a|] eqn:Hc; [|done].
  unfold mbind, M_bind, mret, M_ret, PutState. simpl.
  apply ledger_ok_account; [done|]. by apply Hids.
Qed.

Lemma TopupAccount_ledger_ok (args : list string) (w : World) :
  ledger_ok (state w) -> ledger_ok (state (after (TopupAccount args) w)).
Proof.
  intros Hok. unfold after, TopupAccount.
  destruct args as [|c [|i [|amountArg [|? ?]]]]; try done.
  unfold mbind, M_bind, mret, M_ret, GetAccount, GetState, PutState. simpl.
  destruct (state w !! accountKey c i) as [d|] eqn:Hk; [|done]. simpl.
  destruct (ledger_ok_lookup _ _ _ _ Hok Hk) as (a & -> & _ & Ha).
  rewrite bytesToAccount_AccountJSON.
  destruct (strconv.ParseInt amountArg) as [n|]; [|done]. simpl.
  by apply (ledger_ok_account _ (Credit a n)).
Qed.

Lemma CloseAccount_ledger_ok (args : list string) (w : World) :
  ledger_ok (state w) -> ledger_ok (state (after (CloseAccount args) w)).
Proof.
  intros Hok. unfold after, CloseAccount.
  destruct args as [|c [|i [|? ?]]]; try done.
  unfold mbind, M_bind, mret, M_ret, GetAccount, GetState, PutState. simpl.
  destruct (state w !! accountKey c i) as [d|] eqn:Hk; [|done]. simpl.
  destruct (ledger_ok_lookup _ _ _ _ Hok Hk) as (a & -> & _ & Ha).
  rewrite bytesToAccount_AccountJSON.
  by apply (ledger_ok_account _ (setClosed a)).
Qed.

Lemma TransferMoney_ledger_ok (args : list string) (w : World) :
  ledger_ok (state w) -> ledger_ok (state (after (TransferMoney args) w)).
Proof.
  intros Hok. destruct (TransferMoney_cases args w) as (ws & [_ ->] & Hout).
  destruct Hout as [t src dst _ _ Hs Hd _ _ _ _ -> |
                    t src dst on code err _ _ _ _ _ _ -> |
                    err _ _ ->]; [| |done].
  - unfold sourceOf in Hs. unfold destOf in Hd.
    destruct (state w !! accountKey (FromCustomerID t) (FromAccountID t))
      as [ds|] eqn:Hks; [|done].
    destruct (state w !! accountKey (ToCustomerID t) (ToAccountID t))
      as [dd|] eqn:Hkd; [|done].
    destruct (ledger_ok_lookup _ _ _ _ Hok Hks) as (a & -> & _ & Ha).
    destruct (ledger_ok_lookup _ _ _ _ Hok Hkd) as (b & -> & _ & Hb).
    simpl in Hs, Hd. injection Hs as <-. injection Hd as <-.
    unfold apply_puts. simpl.
    apply (ledger_ok_transaction _ (CreateTransaction _ _ _ _ _ _)).
    apply (ledger_ok_account _ (Credit b _)); [|done].
    apply (ledger_ok_transaction _ (CreateTransaction _ _ _ _ _ _)).
    by apply (ledger_ok_account _ (Debit a _)).
  - unfold apply_puts. simpl.
    by apply (ledger_ok_transaction _ (CreateTransaction _ _ _ _ _ _)).
Qed.

(** Whatever sequence of calls is made on the empty ledger, the ledger
    stays well kept, provided the accounts that the calls of [OpenAccount]
    in the sequence store have good identifiers. *)
Lemma calls_keep_ledger_ok (calls : list call) :
  calls_ok calls ->
  ledger_ok (state (foldl perform emptyWorld calls)).
Proof.
  induction calls as [|c calls IH] using rev_ind; intros Hids.
  - apply ledger_ok_empty.
  - apply Forall_app in Hids as [Hcalls Hc]. rewrite Forall_singleton in Hc.
    specialize (IH Hcalls). rewrite foldl_app. simpl. destruct c; simpl.
    + by apply OpenAccount_ledger_ok.
    + by apply TopupAccount_ledger_ok.
    + by apply CloseAccount_ledger_ok.
    + by apply TransferMoney_ledger_ok.
Qed.

(** X3: after any sequence of calls on the empty ledger in which the
    accounts opened have good identifiers, the ledger is well kept and
    [GetAccountList] returns, each once, exactly the accounts stored for
    the customer. *)
Theorem GetAccountList_after_calls (calls : list call) (c : string) :
  calls_ok calls ->
  sentinel_free c = true ->
  ledger_ok (state (foldl perform emptyWorld calls))
  /\ exists l, answer (GetAccountList [c]) (foldl perform emptyWorld calls)
                 = Return (Some (AccountListJSON l))
               /\ NoDup l
               /\ (forall a, a ∈ l
                             <-> has_account (foldl perform emptyWorld calls) c (ID a) a).
Proof.
  intros Hids Hc. pose proof (calls_keep_ledger_ok calls Hids) as Hok.
  split; [done|]. by apply GetAccountList_stored.
Qed.

End Ledger_invariant.

(** ** Table look-up *)

Lemma lookup_table_elem {A : Type} (tbl : list (string * A)) (s : string) (v : A) :
  lookup_table tbl s = Some v -> exists k, (k, v) ∈ tbl.
Proof.
  induction tbl as [|[k x] tbl IH]; [done|]. simpl.
  destruct (String.eqb k s).
  - intros [= <-]. exists k. apply elem_of_cons. by left.
  - intros Hv. destruct (IH Hv) as (k' & Hin). exists k'. apply elem_of_cons. by right.
Qed.

(** With a table of accounts that have good identifiers, every sequence
    of calls opens accounts with good identifiers. *)
Lemma tableModel_calls_ok (accounts : list (string * Account))
    (transfers : list (string * Transfer)) (calls : list call) :
  Forall (fun kv => ids_ok kv.2) accounts ->
  @calls_ok (tableModel accounts transfers) calls.
Proof.
  intros Hall. apply Forall_forall. intros c _ a Ho.
  destruct c as [[|data rest]|args|args|args]; simpl in Ho; try done.
  unfold CreateAccount, unmarshalAccount, tableModel in Ho.
  destruct (lookup_table accounts data) as [b|] eqn:Hb; [|done].
  destruct (_ || _); [done|]. injection Ho as <-.
  apply lookup_table_elem in Hb as (k & Hin).
  rewrite Forall_forall in Hall. apply (Hall _ Hin).
Qed.

(** ** Scenarios *)

Section Scenarios.

#[local] Existing Instance scenario.

Ltac stored := split; [vm_compute; reflexivity | split; reflexivity].

(** The first scenario of the specification: 200 with fee 10 from A to B
    leaves A with 790 and B with 200. *)
Lemma TransferMoney_balances_witness :
  Validate transfer1 = None
  /\ has_account worldAB "c1" "a1" accountA
  /\ has_account worldAB "c2" "a2" accountB
  /\ exists src' dst',
       has_account (after (TransferMoney ["T1"]) worldAB) "c1" "a1" src'
       /\ has_account (after (TransferMoney ["T1"]) worldAB) "c2" "a2" dst'
       /\ Balance src' = 790 /\ Balance dst' = 200.
Proof.
  assert (Hv : Validate (unmarshalTransfer "T1") = None) by reflexivity.
  assert (Ha : has_account worldAB "c1" "a1" accountA) by stored.
  assert (Hb : has_account worldAB "c2" "a2" accountB) by stored.
  split; [exact Hv|]. split; [exact Ha|]. split; [exact Hb|].
  destruct (TransferMoney_balances "T1" worldAB accountA accountB Hv Ha Hb)
    as (src' & dst' & Hs & Hd & _ & _ & Hsb & Hdb).
  - reflexivity.
  - reflexivity.
  - vm_compute. discriminate.
  - exists src', dst'. split; [exact Hs|]. split; [exact Hd|]. split.
    + apply Hsb. vm_compute. split; discriminate.
    + apply Hdb. vm_compute. split; discriminate.
Defined.

(** C2 as stated fails: 200 with fee 10 from A to R, which holds the
    largest [int64], are accepted, and R is left with
    -9223372036854775609, not with its balance plus 200. *)
Lemma TransferMoney_credit_wraps :
  Validate transfer1 = None
  /\ @has_account fullScenario worldAR "c1" "a1" accountA
  /\ @has_account fullScenario worldAR "c2" "a2" accountR
  /\ Closed accountA = false /\ Closed accountR = false
  /\ 0 <= Int64.sub (Balance accountA) (Amount transfer1)
  /\ answer (@TransferMoney fullScenario ["T1"]) worldAR = Return None
  /\ @has_account fullScenario (after (@TransferMoney fullScenario ["T1"]) worldAR)
        "c2" "a2" (mkAccount "c2" "a2" (-9223372036854775609) false)
  /\ -9223372036854775609 <> Balance accountR + Amount transfer1.
Proof.
  split; [reflexivity|]. split; [stored|]. split; [stored|].
  split; [reflexivity|]. split; [reflexivity|].
  split; [vm_compute; discriminate|]. split; [vm_compute; reflexivity|].
  split; [stored|]. vm_compute. discriminate.
Qed.

(** 1000 with fee 10 from A, whose balance is 1000, is accepted and
    leaves A with -10. *)
Lemma TransferMoney_fee_overdraft_witness :
  Validate transfer3 = None
  /\ has_account worldAB "c1" "a1" accountA
  /\ has_account worldAB "c2" "a2" accountB
  /\ 0 < Fee transfer3 /\ Amount transfer3 <= Balance accountA
  /\ Balance accountA < Amount transfer3 + Fee transfer3
  /\ answer (TransferMoney ["T3"]) worldAB = Return None
  /\ exists src',
       has_account (after (TransferMoney ["T3"]) worldAB) "c1" "a1" src'
       /\ Balance src' = -10 /\ Balance src' < 0.
Proof.
  assert (Hv : Validate (unmarshalTransfer "T3") = None) by reflexivity.
  assert (Ha : has_account worldAB "c1" "a1" accountA) by stored.
  assert (Hb : has_account worldAB "c2" "a2" accountB) by stored.
  split; [exact Hv|]. split; [exact Ha|]. split; [exact Hb|].
  split; [reflexivity|]. split; [discriminate|]. split; [reflexivity|].
  destruct (TransferMoney_fee_overdraft "T3" worldAB accountA accountB Hv Ha Hb)
    as (Hr & src' & Hs & Hbal & Hneg).
  - vm_compute. discriminate.
  - reflexivity.
  - reflexivity.
  - vm_compute. split; discriminate.
  - vm_compute. split; discriminate.
  - vm_compute. split; discriminate.
  - reflexivity.
  - vm_compute. discriminate.
  - reflexivity.
  - split; [exact Hr|]. exists src'. split; [exact Hs|]. split; [exact Hbal | exact Hneg].
Defined.

(** C3 fails on the code.  Account Z is opened with balance 0 and topped
    up by -9223372036854775808; its balance is then below the amount 1
    of the transfer, yet [balance - amount] wraps around to
    9223372036854775807, the floor check passes and the transfer
    completes, moving both balances. *)
Theorem TransferMoney_floor_check_wraps :
  let w := after (TopupAccount ["c3"; "a3"; "-9223372036854775808"])
                 (openAll ["Z"; "B"] emptyWorld) in
  Validate transfer4 = None
  /\ has_account w "c3" "a3" (mkAccount "c3" "a3" (-9223372036854775808) false)
  /\ has_account w "c2" "a2" accountB
  /\ -9223372036854775808 < Amount transfer4
  /\ answer (TransferMoney ["T4"]) w = Return None
  /\ has_account (after (TransferMoney ["T4"]) w) "c3" "a3"
       (mkAccount "c3" "a3" 9223372036854775807 false)
  /\ has_account (after (TransferMoney ["T4"]) w) "c2" "a2" (mkAccount "c2" "a2" 1 false).
Proof.
  intros w. split; [reflexivity|]. split; [stored|]. split; [stored|].
  split; [reflexivity|]. split; [vm_compute; reflexivity|]. split; stored.
Qed.

(** The same wrap-around is reached by transfers alone.  Account Y is
    opened with balance 1; a transfer of 1 with fee 9223372036854775807
    passes the floor check and leaves Y with -9223372036854775807; a
    transfer of 2 from Y then completes although the balance is below the
    amount. *)
Lemma floor_check_wraps_after_fee :
  let w := after (TransferMoney ["T5"]) (openAll ["Y"; "B"] emptyWorld) in
  Validate transfer5 = None /\ Validate transfer6 = None
  /\ has_account w "c4" "a4" (mkAccount "c4" "a4" (-9223372036854775807) false)
  /\ -9223372036854775807 < Amount transfer6
  /\ answer (TransferMoney ["T6"]) w = Return None
  /\ has_account (after (TransferMoney ["T6"]) w) "c4" "a4"
       (mkAccount "c4" "a4" 9223372036854775807 false).
Proof.
  intros w. split; [reflexivity|]. split; [reflexivity|]. split; [stored|].
  split; [reflexivity|]. split; [vm_compute; reflexivity | stored].
Qed.

(** The second scenario of the specification: 5000 from A, whose balance
    is 1000, is refused with one Failed transaction on A and both
    balances as they were. *)
Lemma TransferMoney_insufficient_funds_witness :
  Validate transfer2 = None
  /\ has_account worldAB "c1" "a1" accountA
  /\ has_account worldAB "c2" "a2" accountB
  /\ Balance accountA < Amount transfer2
  /\ answer (TransferMoney ["T2"]) worldAB
     = Error (Errorf "Insufficient funds available in account %s" "a1")
  /\ wrote worldAB (after (TransferMoney ["T2"]) worldAB)
       [transactionWrite (CreateTransaction 0 "c1" "a1" transfer2 InsufficientFunds Failed)]
  /\ has_account (after (TransferMoney ["T2"]) worldAB) "c1" "a1" accountA
  /\ has_account (after (TransferMoney ["T2"]) worldAB) "c2" "a2" accountB.
Proof.
  assert (Hv : Validate (unmarshalTransfer "T2") = None) by reflexivity.
  assert (Ha : has_account worldAB "c1" "a1" accountA) by stored.
  assert (Hb : has_account worldAB "c2" "a2" accountB) by stored.
  split; [exact Hv|]. split; [exact Ha|]. split; [exact Hb|]. split; [reflexivity|].
  apply (TransferMoney_insufficient_funds "T2" worldAB accountA accountB Hv Ha Hb);
    [reflexivity | reflexivity | vm_compute; split; discriminate | reflexivity].
Defined.

(** B is closed; 200 from A to B is refused with one Failed transaction
    on B. *)
Lemma TransferMoney_closed_account_witness :
  let w := after (CloseAccount ["c2"; "a2"]) worldAB in
  Validate transfer1 = None
  /\ has_account w "c1" "a1" accountA
  /\ has_account w "c2" "a2" (setClosed accountB)
  /\ answer (TransferMoney ["T1"]) w
     = Error (Errorf "Cannot transfer money into closed account %s" "a2")
  /\ wrote w (after (TransferMoney ["T1"]) w)
       [transactionWrite (CreateTransaction 0 "c2" "a2" transfer1 AccountClosed Failed)]
  /\ has_account (after (TransferMoney ["T1"]) w) "c1" "a1" accountA.
Proof.
  intros w.
  assert (Hv : Validate (unmarshalTransfer "T1") = None) by reflexivity.
  assert (Ha : has_account w "c1" "a1" accountA) by stored.
  assert (Hb : has_account w "c2" "a2" (setClosed accountB)) by stored.
  split; [exact Hv|]. split; [exact Ha|]. split; [exact Hb|].
  destruct (TransferMoney_closed_account "T1" w accountA (setClosed accountB) Hv Ha Hb)
    as (Hr & Hw & Hkeep).
  - right. reflexivity.
  - split; [exact Hr|]. split; [exact Hw|].
    destruct Ha as (Hst & Hc & Hi). split; [|split; assumption].
    rewrite <- Hst. apply Hkeep.
Defined.

(** C4 fails on the code.  Account A is closed and then topped up by 50:
    [TopupAccount] succeeds and stores the closed account with balance
    1050. *)
Theorem TopupAccount_credits_closed_account :
  let w := after (CloseAccount ["c1"; "a1"]) worldAB in
  has_account w "c1" "a1" (mkAccount "c1" "a1" 1000 true)
  /\ answer (TopupAccount ["c1"; "a1"; "50"]) w
     = Return (Some (AccountJSON (mkAccount "c1" "a1" 1050 true)))
  /\ has_account (after (TopupAccount ["c1"; "a1"; "50"]) w) "c1" "a1"
       (mkAccount "c1" "a1" 1050 true).
Proof.
  intros w. split; [stored|]. split; [vm_compute; reflexivity | stored].
Qed.

(** Accounts A and A2 of customer c1 and account B of customer c2 are
    opened; the list for c1 holds A and A2. *)
Lemma GetAccountList_opened_witness :
  Forall2 (fun data a => CreateAccount data = Some a)
          ["A"; "A2"; "B"] [accountA; accountA2; accountB]
  /\ Forall ids_ok [accountA; accountA2; accountB]
  /\ NoDup ((fun a => (CustomerID a, ID a)) <$> [accountA; accountA2; accountB])
  /\ sentinel_free "c1" = true
  /\ exists l,
       answer (GetAccountList ["c1"]) (openAll ["A"; "A2"; "B"] emptyWorld)
         = Return (Some (AccountListJSON l))
       /\ l ≡ₚ filter (fun a => CustomerID a = "c1") [accountA; accountA2; accountB].
Proof.
  assert (H1 : Forall2 (fun data a => CreateAccount data = Some a)
                 ["A"; "A2"; "B"] [accountA; accountA2; accountB])
    by (repeat constructor).
  assert (H2 : Forall ids_ok [accountA; accountA2; accountB])
    by (repeat constructor).
  assert (H3 : NoDup ((fun a => (CustomerID a, ID a)) <$> [accountA; accountA2; accountB])).
  { refine (bool_decide_unpack _ _). vm_compute. exact I. }
  split; [exact H1|]. split; [exact H2|]. split; [exact H3|]. split; [reflexivity|].
  exact (GetAccountList_opened _ _ "c1" H1 H2 H3 eq_refl).
Defined.

(** C5 as stated fails.  Account M of customer c1 has the maximum rune as
    its account identifier, which holds no separator; once A and M are
    opened M is stored, but its key is not below the upper bound of the
    scan and the list for c1 holds A only. *)
Lemma GetAccountList_misses_max_rune :
  CreateAccount "A" = Some accountA /\ CreateAccount "M" = Some accountM
  /\ sentinel_free (CustomerID accountM) = true /\ sentinel_free (ID accountM) = true
  /\ has_account (openAll ["A"; "M"] emptyWorld) "c1" MaxRune accountM
  /\ answer (GetAccountList ["c1"]) (openAll ["A"; "M"] emptyWorld)
     = Return (Some (AccountListJSON [accountA])).
Proof.
  split; [reflexivity|]. split; [reflexivity|]. split; [reflexivity|].
  split; [reflexivity|]. split; [stored | vm_compute; reflexivity].
Qed.

(** Closing A twice. *)
Lemma CloseAccount_idempotent_witness :
  has_account worldAB "c1" "a1" accountA
  /\ has_account (after (CloseAccount ["c1"; "a1"]) worldAB) "c1" "a1" (setClosed accountA)
  /\ state (after (CloseAccount ["c1"; "a1"]) (after (CloseAccount ["c1"; "a1"]) worldAB))
     = state (after (CloseAccount ["c1"; "a1"]) worldAB).
Proof.
  assert (Ha : has_account worldAB "c1" "a1" accountA) by stored.
  split; [exact Ha|].
  destruct (CloseAccount_idempotent worldAB "c1" "a1") as [Hclose _].
  destruct (Hclose accountA Ha) as (_ & Hw1 & _ & _ & Hst).
  split; [exact Hw1 | exact Hst].
Defined.

(** A is closed and topped up, then opened again: the stored record is
    the payload's, with balance 1000 and open. *)
Lemma OpenAccount_overwrites_witness :
  let w := after (TopupAccount ["c1"; "a1"; "50"]) (after (CloseAccount ["c1"; "a1"]) worldAB) in
  CreateAccount "A" = Some accountA
  /\ state w !! accountKey "c1" "a1" = Some (AccountJSON (mkAccount "c1" "a1" 1050 true))
  /\ answer (OpenAccount ["A"]) w = Return (Some (AccountJSON accountA))
  /\ has_account (after (OpenAccount ["A"]) w) "c1" "a1" accountA.
Proof.
  intros w.
  assert (Hc : CreateAccount "A" = Some accountA) by reflexivity.
  assert (Hold : state w !! accountKey (CustomerID accountA) (ID accountA)
                 = Some (AccountJSON (mkAccount "c1" "a1" 1050 true)))
    by (vm_compute; reflexivity).
  split; [exact Hc|]. split; [exact Hold|].
  destruct (OpenAccount_overwrites w "A" accountA _ Hc Hold) as (Hr & _ & Hs).
  split; [exact Hr | exact Hs].
Defined.

(** Topping A up by -5. *)
Lemma TopupAccount_amount_witness :
  has_account worldAB "c1" "a1" accountA
  /\ strconv.ParseInt "-5" = Some (-5)
  /\ answer (TopupAccount ["c1"; "a1"; "-5"]) worldAB
     = Return (Some (AccountJSON (Credit accountA (-5))))
  /\ has_account (after (TopupAccount ["c1"; "a1"; "-5"]) worldAB) "c1" "a1"
       (Credit accountA (-5)).
Proof.
  assert (Ha : has_account worldAB "c1" "a1" accountA) by stored.
  assert (Hp : strconv.ParseInt "-5" = Some (-5)) by reflexivity.
  split; [exact Ha|]. split; [exact Hp|].
  destruct (TopupAccount_amount worldAB "c1" "a1" "-5") as (_ & _ & Hok).
  destruct (Hok accountA (-5) Ha Hp) as (Hr & _ & Hs & _).
  split; [exact Hr | exact Hs].
Defined.

(** C7: [TopupAccount] has no guard on the sign of the amount, which
    [Validate] has for the amount of a transfer: on account A, which holds
    1000, the amounts 0 and -5 are not rejected, and -5 lowers the stored
    balance to 995. *)
Lemma TopupAccount_accepts_nonpositive :
  has_account worldAB "c1" "a1" accountA
  /\ answer (TopupAccount ["c1"; "a1"; "0"]) worldAB = Return (Some (AccountJSON accountA))
  /\ answer (TopupAccount ["c1"; "a1"; "-5"]) worldAB
     = Return (Some (AccountJSON (mkAccount "c1" "a1" 995 false)))
  /\ has_account (after (TopupAccount ["c1"; "a1"; "-5"]) worldAB) "c1" "a1"
       (mkAccount "c1" "a1" 995 false).
Proof.
  split; [stored|]. split; [vm_compute; reflexivity|].
  split; [vm_compute; reflexivity | stored].
Qed.

(** Under the payloads of [safeScenario]: A, A2 and B are opened, A is
    topped up, 200 go from A to B and A2 is closed; the ledger is well
    kept and the list for c1 holds the accounts stored for c1. *)
Lemma GetAccountList_after_calls_witness :
  let calls := [CallOpenAccount ["A"]; CallOpenAccount ["A2"]; CallOpenAccount ["B"];
                CallTopupAccount ["c1"; "a1"; "50"]; CallTransferMoney ["T1"];
                CallCloseAccount ["c1"; "a2"]] in
  @calls_ok safeScenario calls
  /\ sentinel_free "c1" = true
  /\ @ledger_ok safeScenario (state (foldl (@perform safeScenario) emptyWorld calls))
  /\ exists l,
       answer (@GetAccountList safeScenario ["c1"])
              (foldl (@perform safeScenario) emptyWorld calls)
         = Return (Some (AccountListJSON l))
       /\ NoDup l
       /\ (forall a, a ∈ l
             <-> @has_account safeScenario
                   (foldl (@perform safeScenario) emptyWorld calls) "c1" (ID a) a).
Proof.
  intros calls.
  assert (Hids : @calls_ok safeScenario calls).
  { apply tableModel_calls_ok.
    repeat (apply Forall_cons_2; [repeat split; reflexivity|]). apply Forall_nil_2. }
  split; [exact Hids|]. split; [reflexivity|].
  exact (@GetAccountList_after_calls safeScenario calls "c1" Hids eq_refl).
Defined.

End Scenarios.

(** * Part III: further properties of the handlers *)

(** ** Range scans by partial key *)

#[global] Instance key_le_total : Total key_le.
Proof. intros x y. unfold key_le. apply (total String.le). Qed.

Lemma lead_below_max_ltb (r : string) :
  lead_below_max r = true -> String.ltb r MaxRune = true.
Proof.
  destruct r as [|c r]; [done|]. simpl. intros Hc%N.ltb_lt.
  unfold String.ltb, MaxRune. simpl. unfold Ascii.compare.
  assert (Hlt : (N_of_ascii c ?= N_of_ascii (ascii_of_nat 244))%N = Lt)
    by (apply N.compare_lt_iff; exact Hc).
  by rewrite Hlt.
Qed.

(** X4: the scan of a partial composite key changes nothing and returns,
    in key order and each key once, exactly the stored entries whose key
    is the partial key followed by a remainder that sorts below the
    maximum rune: every returned key has the partial key as a prefix, and
    every stored key with that prefix whose next byte is below 0xF4 is
    returned. *)
Theorem partialCompositeKeyQuery_scan `{Model} (objectType : string)
    (keys : list string) (w : World) :
  after (partialCompositeKeyQuery objectType keys) w = w
  /\ NoDup (fst <$> answer (partialCompositeKeyQuery objectType keys) w)
  /\ Sorted key_le (answer (partialCompositeKeyQuery objectType keys) w)
  /\ (forall k d, (k, d) ∈ answer (partialCompositeKeyQuery objectType keys) w
        <-> state w !! k = Some d
            /\ exists r, k = createCompositeKey objectType keys +:+ r
                         /\ String.ltb r MaxRune = true)
  /\ (forall k d, (k, d) ∈ answer (partialCompositeKeyQuery objectType keys) w ->
        String.prefix (createCompositeKey objectType keys) k = true)
  /\ (forall r d, state w !! (createCompositeKey objectType keys +:+ r) = Some d ->
        lead_below_max r = true ->
        (createCompositeKey objectType keys +:+ r, d)
          ∈ answer (partialCompositeKeyQuery objectType keys) w).
Proof.
  unfold after, answer, partialCompositeKeyQuery, RangeQueryState. simpl.
  set (p := createCompositeKey objectType keys).
  assert (Hmem : forall k d,
            (k, d) ∈ merge_sort key_le
                       (filter (fun kv => in_scan p (p +:+ MaxRune) kv.1 = true)
                               (map_to_list (state w)))
            <-> state w !! k = Some d
                /\ exists r, k = p +:+ r /\ String.ltb r MaxRune = true).
  { intros k d. rewrite merge_sort_Permutation, list_elem_of_filter,
      elem_of_map_to_list. simpl. rewrite in_scan_append. tauto. }
  split; [done|]. split.
  { rewrite merge_sort_Permutation.
    apply (NoDup_fmap_2_strong fst).
    - intros [k1 d1] [k2 d2] [_ H1]%list_elem_of_filter [_ H2]%list_elem_of_filter.
      simpl. intros <-. apply elem_of_map_to_list in H1, H2. congruence.
    - apply NoDup_filter, NoDup_map_to_list. }
  split; [apply Sorted_merge_sort, _|]. split; [exact Hmem|]. split.
  - intros k d (_ & r & -> & _)%Hmem. apply str_prefix_append_r.
  - intros r d Hst Hlead. apply Hmem. split; [done|]. exists r.
    split; [done | by apply lead_below_max_ltb].
Qed.

(** ** Keys that hold the separator *)

(** An attribute that holds the separator reads as two attributes. *)
Lemma createCompositeKey_separator (objectType a b : string) (l1 l2 : list string) :
  createCompositeKey objectType (l1 ++ (a +:+ (minKeyValue +:+ b)) :: l2)
  = createCompositeKey objectType (l1 ++ a :: b :: l2).
Proof.
  rewrite !createCompositeKey_app. f_equal. simpl. by rewrite !append_assoc.
Qed.

(** X5: the codec does not keep apart identifiers that hold the
    separator.  An account opened for the customer [a0b] with account
    identifier [c] is stored under the key of customer [a] and account
    [b0c], and [GetAccount] for that other pair returns it. *)
Theorem OpenAccount_key_collision `{Model} (w : World) (data : string)
    (account : Account) (a b c : string) :
  CreateAccount data = Some account ->
  CustomerID account = a +:+ (minKeyValue +:+ b) ->
  ID account = c ->
  accountKey (a +:+ (minKeyValue +:+ b)) c = accountKey a (b +:+ (minKeyValue +:+ c))
  /\ answer (GetAccount [a; b +:+ (minKeyValue +:+ c)]) (after (OpenAccount [data]) w)
     = Return (Some (AccountJSON account)).
Proof.
  intros Hc Hcust Hid.
  assert (Hkey : accountKey (a +:+ (minKeyValue +:+ b)) c
                 = accountKey a (b +:+ (minKeyValue +:+ c))).
  { unfold accountKey.
    rewrite (createCompositeKey_separator AccountObjectType a b [] [c]).
    by rewrite (createCompositeKey_separator AccountObjectType b c [a] []). }
  split; [exact Hkey|].
  unfold answer, after, OpenAccount, GetAccount, mbind, M_bind, mret, M_ret,
    PutState, GetState.
  rewrite Hc. simpl. rewrite Hcust, Hid, Hkey. by rewrite lookup_insert_eq.
Qed.

(** Account D of customer 10, account 1, is returned for customer 1,
    account 01. *)
Lemma OpenAccount_key_collision_witness :
  @CreateAccount collidingScenario "D" = Some accountD
  /\ CustomerID accountD = "1" +:+ (minKeyValue +:+ "")
  /\ ID accountD = "1"
  /\ answer (@GetAccount collidingScenario ["1"; "01"])
            (after (@OpenAccount collidingScenario ["D"]) emptyWorld)
     = Return (Some (AccountJSON accountD)).
Proof.
  assert (H1 : @CreateAccount collidingScenario "D" = Some accountD) by reflexivity.
  assert (H2 : CustomerID accountD = "1" +:+ (minKeyValue +:+ "")) by reflexivity.
  assert (H3 : ID accountD = "1") by reflexivity.
  split; [exact H1|]. split; [exact H2|]. split; [exact H3|].
  exact (proj2 (@OpenAccount_key_collision collidingScenario emptyWorld "D" accountD
                  "1" "" "1" H1 H2 H3)).
Defined.

(** ** Reading accounts back *)

(** X6: whenever a call returns an account, [GetAccount] for the
    identifiers of that account returns the same account right after the
    call: [OpenAccount], [TopupAccount] and [CloseAccount] store what they
    return under the key of the returned account. *)
Theorem GetAccount_reads_last_write `{Model} (w : World) (c : call) (a : Account) :
  respond w c = Return (Some (AccountJSON a)) ->
  answer (GetAccount [CustomerID a; ID a]) (perform w c) = Return (Some (AccountJSON a)).
Proof.
  destruct c as [args|args|args|args]; simpl.
  - unfold answer, after, OpenAccount, GetAccount, mbind, M_bind, mret, M_ret,
      PutState, GetState.
    destruct args as [|data rest]; [done|].
    destruct (CreateAccount data) as [account|]; [|done]. simpl.
    intros [= <-]. by rewrite lookup_insert_eq.
  - unfold answer, after, TopupAccount, GetAccount, mbind, M_bind, mret, M_ret,
      PutState, GetState.
    destruct args as [|cu [|i [|amt [|? ?]]]]; try done. simpl.
    destruct (state w !! accountKey cu i) as [d|]; [|done]. simpl.
    destruct (strconv.ParseInt amt) as [n|]; [|done]. simpl.
    intros [= <-]. by rewrite lookup_insert_eq.
  - unfold answer, after, CloseAccount, GetAccount, mbind, M_bind, mret, M_ret,
      PutState, GetState.
    destruct args as [|cu [|i [|? ?]]]; try done. simpl.
    destruct (state w !! accountKey cu i) as [d|]; [|done]. simpl.
    intros [= <-]. by rewrite lookup_insert_eq.
  - intros Hr. exfalso.
    destruct (TransferMoney_cases args w) as (ws & _ & Hout).
    destruct Hout as [? ? ? _ _ _ _ _ _ _ Hr' _ | ? ? ? ? ? ? _ _ _ _ _ Hr' _ | ? _ Hr' _];
      rewrite Hr in Hr'; done.
Qed.

(** A is topped up by 50 and read back. *)
Lemma GetAccount_reads_last_write_witness :
  @respond journalScenario worldJ (CallTopupAccount ["c1"; "a1"; "50"])
    = Return (Some (AccountJSON (mkAccount "c1" "a1" 1050 false)))
  /\ answer (@GetAccount journalScenario ["c1"; "a1"])
            (@perform journalScenario worldJ (CallTopupAccount ["c1"; "a1"; "50"]))
     = Return (Some (AccountJSON (mkAccount "c1" "a1" 1050 false))).
Proof.
  assert (Hr : @respond journalScenario worldJ (CallTopupAccount ["c1"; "a1"; "50"])
               = Return (Some (AccountJSON (mkAccount "c1" "a1" 1050 false))))
    by (vm_compute; reflexivity).
  split; [exact Hr|].
  exact (@GetAccount_reads_last_write journalScenario worldJ _ _ Hr).
Defined.

(** ** Accounts that are not stored *)

(** X7: for a pair of identifiers with nothing stored under its key,
    [GetAccount] returns no data and no error, while [TopupAccount]
    returns the not-found error whatever its amount argument is, and a
    valid transfer from or to the pair returns the not-found error as
    well; for a missing destination this holds whatever is stored for the
    source, so a closed source leaves no Failed transaction.  None of
    these calls changes anything. *)
Theorem missing_account `{Model} (w : World) (customerID accountID : string) :
  state w !! accountKey customerID accountID = None ->
  (answer (GetAccount [customerID; accountID]) w = Return None
   /\ after (GetAccount [customerID; accountID]) w = w)
  /\ (forall amountArg,
        answer (TopupAccount [customerID; accountID; amountArg]) w
          = Error (Errorf "Account with number %s not found." accountID)
        /\ after (TopupAccount [customerID; accountID; amountArg]) w = w)
  /\ (forall data,
        Validate (unmarshalTransfer data) = None ->
        FromCustomerID (unmarshalTransfer data) = customerID ->
        FromAccountID (unmarshalTransfer data) = accountID ->
        answer (TransferMoney [data]) w
          = Error (Errorf "Account with number %s not found." accountID)
        /\ after (TransferMoney [data]) w = w)
  /\ (forall data,
        Validate (unmarshalTransfer data) = None ->
        ToCustomerID (unmarshalTransfer data) = customerID ->
        ToAccountID (unmarshalTransfer data) = accountID ->
        is_Some (state w !! accountKey (FromCustomerID (unmarshalTransfer data))
                                       (FromAccountID (unmarshalTransfer data))) ->
        answer (TransferMoney [data]) w
          = Error (Errorf "Account with number %s not found." accountID)
        /\ after (TransferMoney [data]) w = w).
Proof.
  intros Hnone. split; [|split; [|split]].
  - unfold answer, after, GetAccount, mbind, M_bind, mret, M_ret, GetState. simpl.
    by rewrite Hnone.
  - intros amountArg.
    unfold answer, after, TopupAccount, GetAccount, mbind, M_bind, mret, M_ret, GetState.
    simpl. by rewrite Hnone.
  - intros data Hv Hc Hi.
    unfold answer, after, TransferMoney. rewrite Hv.
    unfold GetAccount, mbind, M_bind, mret, M_ret, GetState. simpl.
    by rewrite Hc, Hi, Hnone.
  - intros data Hv Hc Hi [d Hd].
    unfold answer, after, TransferMoney. rewrite Hv.
    unfold GetAccount, mbind, M_bind, mret, M_ret, GetState. simpl.
    rewrite Hd. simpl. by rewrite Hc, Hi, Hnone.
Qed.

(** Nothing is stored for c9/a9: the look-up is empty, the top-up with a
    malformed amount is refused as not found, and so is the transfer from
    A to c9/a9. *)
Lemma missing_account_witness :
  state worldJ !! @accountKey journalScenario "c9" "a9" = None
  /\ answer (@GetAccount journalScenario ["c9"; "a9"]) worldJ = Return None
  /\ answer (@TopupAccount journalScenario ["c9"; "a9"; "12x"]) worldJ
     = Error (Errorf "Account with number %s not found." "a9")
  /\ answer (@TransferMoney journalScenario ["T7"]) worldJ
     = Error (Errorf "Account with number %s not found." "a9")
  /\ after (@TransferMoney journalScenario ["T7"]) worldJ = worldJ.
Proof.
  assert (Hn : state worldJ !! @accountKey journalScenario "c9" "a9" = None)
    by (vm_compute; reflexivity).
  destruct (@missing_account journalScenario worldJ "c9" "a9" Hn)
    as ((Hg & _) & Ht & _ & Hto).
  split; [exact Hn|]. split; [exact Hg|]. split; [exact (proj1 (Ht "12x"))|].
  apply (Hto "T7"); [reflexivity | reflexivity | reflexivity |].
  exists (AccountJSON accountA). vm_compute. reflexivity.
Defined.

(** ** Reading transactions back *)

Lemma append_separator_inj (s t : string) :
  s +:+ minKeyValue = t +:+ minKeyValue -> s = t.
Proof.
  revert t. induction s as [|c s IH]; intros [|d t]; rewrite ?append_nil_l, ?append_cons.
  - done.
  - unfold minKeyValue. intros [= _ Ht]. by destruct t.
  - unfold minKeyValue. intros [= _ Hs]. by destruct s.
  - intros [= -> Heq]. f_equal. by apply IH.
Qed.

Lemma segment_inj (a b r1 r2 : string) :
  sentinel_free a = true -> sentinel_free b = true ->
  a +:+ (minKeyValue +:+ r1) = b +:+ (minKeyValue +:+ r2) -> a = b /\ r1 = r2.
Proof.
  intros Ha Hb Heq.
  assert (Hp : String.prefix (a +:+ (minKeyValue +:+ r1)) (b +:+ (minKeyValue +:+ r2)) = true)
    by (rewrite Heq; apply str_prefix_refl).
  apply prefix_segment in Hp as [-> _]; [|done..].
  split; [done|]. by do 2 apply String.app_inj in Heq.
Qed.

(** Transaction keys of accounts whose identifiers hold no separator are
    equal only for the same account and the same transaction identifier,
    whatever the transaction identifiers hold. *)
Lemma transactionKey_inj `{Model} (c a i c' a' i' : string) :
  sentinel_free c = true -> sentinel_free a = true ->
  sentinel_free c' = true -> sentinel_free a' = true ->
  transactionKey c a i = transactionKey c' a' i' -> c = c' /\ a = a' /\ i = i'.
Proof.
  intros Hc Ha Hc' Ha'. unfold transactionKey. rewrite !createCompositeKey_segments.
  intros Heq. do 2 apply String.app_inj in Heq. simpl in Heq.
  apply segment_inj in Heq as [-> Heq]; [|done..].
  apply segment_inj in Heq as [-> Heq]; [|done..].
  rewrite !append_nil_r in Heq. by apply append_separator_inj in Heq as ->.
Qed.

Lemma accountKey_inj `{Model} (c a c' a' : string) :
  sentinel_free c = true -> sentinel_free a = true ->
  sentinel_free c' = true -> sentinel_free a' = true ->
  accountKey c a = accountKey c' a' -> c = c' /\ a = a'.
Proof.
  intros Hc Ha Hc' Ha' Heq.
  apply createCompositeKey_inj in Heq; [| by repeat constructor..].
  by injection Heq.
Qed.

Lemma GetTransaction_lookup `{Model} (w : World) (c a i : string) :
  answer (GetTransaction [c; a; i]) w = Return (state w !! transactionKey c a i).
Proof. reflexivity. Qed.

(** The clock counts the transactions a transfer records. *)
Lemma TransferMoney_cases_clock `{Model} (args : list string) (w : World) :
  exists ws, wrote w (after (TransferMoney args) w) ws
             /\ TransferOutcome args w (answer (TransferMoney args) w) ws
             /\ clock (after (TransferMoney args) w)
                = (clock w + transactionWrites ws)%nat.
Proof.
  unfold after, answer, TransferMoney.
  destruct args as [|data rest].
  { exists []. split; [apply wrote_nil|]. split; [|unfold mret, M_ret, transactionWrites; simpl; lia].
    by eapply Aborted; [left|..]. }
  set (t := unmarshalTransfer data).
  destruct (Validate t) as [err|] eqn:Hval.
  { exists []. split; [apply wrote_nil|]. split; [|unfold mret, M_ret, transactionWrites; simpl; lia].
    eapply Aborted; [right; exists t; split; [done|left; congruence] | done..]. }
  unfold mbind, M_bind, mret, M_ret, GetAccount, GetState. simpl.
  destruct (state w !! accountKey (FromCustomerID t) (FromAccountID t))
    as [srcData|] eqn:Hsrc; simpl.
  2:{ exists []. split; [apply wrote_nil|]. split; [|unfold mret, M_ret, transactionWrites; simpl; lia].
      eapply Aborted; [right; exists t; split; [done|right; left] | done..].
      unfold sourceOf. by rewrite Hsrc. }
  destruct (state w !! accountKey (ToCustomerID t) (ToAccountID t))
    as [dstData|] eqn:Hdst; simpl.
  2:{ exists []. split; [apply wrote_nil|]. split; [|unfold mret, M_ret, transactionWrites; simpl; lia].
      eapply Aborted; [right; exists t; split; [done|right; right] | done..].
      unfold sourceOf, destOf. rewrite Hsrc, Hdst. done. }
  assert (Hs : sourceOf t w = Some (bytesToAccount srcData))
    by (unfold sourceOf; by rewrite Hsrc).
  assert (Hd : destOf t w = Some (bytesToAccount dstData))
    by (unfold destOf; by rewrite Hdst).
  destruct (Closed (bytesToAccount srcData)) eqn:Hcs; simpl.
  { eexists. split; [split; simpl; reflexivity|]. split; [|unfold mret, M_ret, transactionWrites; simpl; lia].
    eapply (Rejected _ _ _ _ t _ _ (bytesToAccount srcData)); eauto. }
  destruct (Closed (bytesToAccount dstData)) eqn:Hcd; simpl.
  { eexists. split; [split; simpl; reflexivity|]. split; [|unfold mret, M_ret, transactionWrites; simpl; lia].
    eapply (Rejected _ _ _ _ t _ _ (bytesToAccount dstData));
      [reflexivity | exact Hval | exact Hs | exact Hd
      | right; left; repeat split; assumption || reflexivity
      | reflexivity | reflexivity]. }
  destruct (Int64.sub (Balance (bytesToAccount srcData)) (Amount t) <? 0) eqn:Hlt; simpl.
  { apply Z.ltb_lt in Hlt.
    eexists. split; [split; simpl; reflexivity|]. split; [|unfold mret, M_ret, transactionWrites; simpl; lia].
    eapply (Rejected _ _ _ _ t _ _ (bytesToAccount srcData));
      [reflexivity | exact Hval | exact Hs | exact Hd
      | right; right; repeat split; assumption || reflexivity
      | reflexivity | reflexivity]. }
  apply Z.ltb_ge in Hlt.
  eexists. split; [split; simpl|].
  - rewrite <- !app_assoc. simpl. reflexivity.
  - reflexivity.
  - split; [|unfold mret, M_ret, transactionWrites; simpl; lia]. eapply Completed; eauto.
Qed.

(** X8: both legs of a completed transfer can be read back.  For a valid
    transfer between two stored open accounts whose identifiers hold no
    separator and whose source balance passes the floor check,
    [GetTransaction] returns afterwards the Debited entry under the source
    account and the Credited entry under the destination account, with
    the two identifiers given at the two ticks of the clock. *)
Theorem TransferMoney_legs_readable `{Model} (data : string) (w : World)
    (src dst : Account) :
  let t := unmarshalTransfer data in
  Validate t = None ->
  has_account w (FromCustomerID t) (FromAccountID t) src ->
  has_account w (ToCustomerID t) (ToAccountID t) dst ->
  attrs_free [FromCustomerID t; FromAccountID t] ->
  attrs_free [ToCustomerID t; ToAccountID t] ->
  Closed src = false -> Closed dst = false ->
  0 <= Int64.sub (Balance src) (Amount t) ->
  answer (GetTransaction [FromCustomerID t; FromAccountID t; newTransactionID (clock w)])
         (after (TransferMoney [data]) w)
    = Return (Some (TransactionJSON
        (CreateTransaction (clock w) (FromCustomerID t) (FromAccountID t) t
                           NoFailure Debited)))
  /\ answer (GetTransaction [ToCustomerID t; ToAccountID t;
                             newTransactionID (S (clock w))])
            (after (TransferMoney [data]) w)
     = Return (Some (TransactionJSON
         (CreateTransaction (S (clock w)) (ToCustomerID t) (ToAccountID t) t
                            NoFailure Credited)))
  /\ clock (after (TransferMoney [data]) w) = S (S (clock w)).
Proof.
  intros t Hval Hsrc Hdst Hfs Hfd Hcs Hcd Hfloor.
  pose proof (has_account_source _ _ _ Hsrc) as Hs.
  pose proof (has_account_dest _ _ _ Hdst) as Hd.
  pose proof (Validate_distinct t Hval) as Hdiff.
  destruct Hsrc as (_ & Hsc & Hsi). destruct Hdst as (_ & Hdc & Hdi).
  apply Forall_cons in Hfs as [Hf1 [Hf2 _]%Forall_cons].
  apply Forall_cons in Hfd as [Hf3 [Hf4 _]%Forall_cons].
  destruct (TransferMoney_cases_clock [data] w) as (ws & [_ Hst] & Hout & Hclock).
  destruct Hout as [t' src' dst' Ht' _ Hs' Hd' _ _ _ Hr Hws |
                    t' src' dst' on code err Ht' _ Hs' Hd' Hwhy _ _ |
                    err Hwhy _ _].
  - injection Ht' as <-. fold t in Hs', Hd'.
    rewrite Hs in Hs'. rewrite Hd in Hd'. injection Hs' as <-. injection Hd' as <-.
    subst ws. split; [|split].
    + rewrite GetTransaction_lookup, Hst. unfold apply_puts. simpl.
      rewrite Hsc, Hsi, Hdc, Hdi.
      rewrite lookup_insert_ne.
      2:{ intros Heq. apply transactionKey_inj in Heq as (Hc' & Ha' & _); [|done..].
          apply Hdiff. congruence. }
      rewrite lookup_insert_ne by apply accountKey_transactionKey.
      by rewrite lookup_insert_eq.
    + rewrite GetTransaction_lookup, Hst. unfold apply_puts. simpl.
      rewrite Hdc, Hdi. by rewrite lookup_insert_eq.
    + rewrite Hclock. unfold transactionWrites. simpl. lia.
  - injection Ht' as <-. fold t in Hs', Hd'.
    rewrite Hs in Hs'. rewrite Hd in Hd'. injection Hs' as <-. injection Hd' as <-.
    destruct Hwhy as [(? & _) | [(_ & ? & _) | (_ & _ & ? & _)]];
      [congruence..|unfold t in *; lia].
  - destruct Hwhy as [? | (t' & Ht' & Hwhy)]; [done|].
    injection Ht' as <-. fold t in Hwhy.
    destruct Hwhy as [? | [? | (_ & ?)]]; congruence.
Qed.

(** 200 with fee 10 from A to B: the Debited entry tx0 on A and the
    Credited entry tx1 on B are read back. *)
Lemma TransferMoney_legs_readable_witness :
  @Validate transfer1 = None
  /\ @has_account journalScenario worldJ "c1" "a1" accountA
  /\ @has_account journalScenario worldJ "c2" "a2" accountB
  /\ attrs_free ["c1"; "a1"] /\ attrs_free ["c2"; "a2"]
  /\ answer (@GetTransaction journalScenario ["c1"; "a1"; "tx0"])
            (after (@TransferMoney journalScenario ["T1"]) worldJ)
     = Return (Some (TransactionJSON
         (mkTransaction "tx0" "c1" "a1" 0 transfer1 NoFailure Debited)))
  /\ answer (@GetTransaction journalScenario ["c2"; "a2"; "tx1"])
            (after (@TransferMoney journalScenario ["T1"]) worldJ)
     = Return (Some (TransactionJSON
         (mkTransaction "tx1" "c2" "a2" 1 transfer1 NoFailure Credited))).
Proof.
  assert (Hv : @Validate (@unmarshalTransfer journalScenario "T1") = None) by reflexivity.
  assert (Ha : @has_account journalScenario worldJ "c1" "a1" accountA)
    by (split; [vm_compute; reflexivity | split; reflexivity]).
  assert (Hb : @has_account journalScenario worldJ "c2" "a2" accountB)
    by (split; [vm_compute; reflexivity | split; reflexivity]).
  assert (H1 : attrs_free ["c1"; "a1"]) by (repeat constructor).
  assert (H2 : attrs_free ["c2"; "a2"]) by (repeat constructor).
  split; [exact Hv|]. split; [exact Ha|]. split; [exact Hb|].
  split; [exact H1|]. split; [exact H2|].
  destruct (@TransferMoney_legs_readable journalScenario "T1" worldJ accountA accountB
              Hv Ha Hb H1 H2 eq_refl eq_refl) as (Hd & Hc & _).
  - vm_compute. discriminate.
  - split; [exact Hd | exact Hc].
Defined.

(** ** What the calls keep *)

Section Journal.

Context `{Model}.

Lemma OpenAccount_step (args : list string) (w : World) :
  clock (after (OpenAccount args) w) = clock w
  /\ (state (after (OpenAccount args) w) = state w
      \/ exists a,
           opened (CallOpenAccount args) = Some a
           /\ state (after (OpenAccount args) w)
              = <[accountKey (CustomerID a) (ID a) := AccountJSON a]> (state w)).
Proof.
  unfold after, OpenAccount. destruct args as [|data rest]; [by split; [|left]|].
  destruct (CreateAccount data) as [a|] eqn:Hc; [|by split; [|left]].
  split; [done|]. right. exists a. split; [exact Hc | done].
Qed.

Lemma TopupAccount_step (args : list string) (w : World) :
  clock (after (TopupAccount args) w) = clock w
  /\ (state (after (TopupAccount args) w) = state w
      \/ exists cu i d n,
           state w !! accountKey cu i = Some d
           /\ state (after (TopupAccount args) w)
              = <[accountKey (CustomerID (bytesToAccount d)) (ID (bytesToAccount d))
                  := AccountJSON (Credit (bytesToAccount d) n)]> (state w)).
Proof.
  unfold after, TopupAccount.
  destruct args as [|cu [|i [|amt [|? ?]]]]; try (by split; [|left]).
  unfold mbind, M_bind, mret, M_ret, GetAccount, GetState, PutState. simpl.
  destruct (state w !! accountKey cu i) as [d|] eqn:Hk; [|by split; [|left]]. simpl.
  destruct (strconv.ParseInt amt) as [n|]; [|by split; [|left]]. simpl.
  split; [done|]. right. by exists cu, i, d, n.
Qed.

Lemma CloseAccount_step (args : list string) (w : World) :
  clock (after (CloseAccount args) w) = clock w
  /\ (state (after (CloseAccount args) w) = state w
      \/ exists cu i d,
           state w !! accountKey cu i = Some d
           /\ state (after (CloseAccount args) w)
              = <[accountKey (CustomerID (bytesToAccount d)) (ID (bytesToAccount d))
                  := AccountJSON (setClosed (bytesToAccount d))]> (state w)).
Proof.
  unfold after, CloseAccount.
  destruct args as [|cu [|i [|? ?]]]; try (by split; [|left]).
  unfold mbind, M_bind, mret, M_ret, GetAccount, GetState, PutState. simpl.
  destruct (state w !! accountKey cu i) as [d|] eqn:Hk; [|by split; [|left]]. simpl.
  split; [done|]. right. by exists cu, i, d.
Qed.

Lemma txs_ok_account (st : gmap string bytes) (k : string) (a : Account) :
  txs_ok st -> txs_ok (<[k := AccountJSON a]> st).
Proof.
  intros Hok k' t Hk. destruct (decide (k = k')) as [<-|Hne].
  - by rewrite lookup_insert_eq in Hk.
  - rewrite lookup_insert_ne in Hk by done. by eapply Hok.
Qed.

Lemma txs_ok_transaction (st : gmap string bytes) (k : string) (t : Transaction) :
  txs_ok st -> tx_ok t -> txs_ok (<[k := TransactionJSON t]> st).
Proof.
  intros Hok Ht k' t' Hk. destruct (decide (k = k')) as [<-|Hne].
  - rewrite lookup_insert_eq in Hk. by injection Hk as <-.
  - rewrite lookup_insert_ne in Hk by done. by eapply Hok.
Qed.

Lemma dated_mono (st : gmap string bytes) (now later : nat) :
  (now <= later)%nat -> dated st now -> dated st later.
Proof.
  intros Hle Hd k t Hk. destruct (Hd k t Hk) as (n & Hn & Hid).
  exists n. split; [lia | done].
Qed.

Lemma dated_account (st : gmap string bytes) (now : nat) (k : string) (a : Account) :
  dated st now -> dated (<[k := AccountJSON a]> st) now.
Proof.
  intros Hd k' t Hk. destruct (decide (k = k')) as [<-|Hne].
  - by rewrite lookup_insert_eq in Hk.
  - rewrite lookup_insert_ne in Hk by done. by eapply Hd.
Qed.

Lemma dated_transaction (st : gmap string bytes) (now n : nat) (k : string)
    (t : Transaction) :
  dated st now -> (n < now)%nat -> TxID t = newTransactionID n ->
  dated (<[k := TransactionJSON t]> st) now.
Proof.
  intros Hd Hn Hid k' t' Hk. destruct (decide (k = k')) as [<-|Hne].
  - rewrite lookup_insert_eq in Hk. injection Hk as <-. by exists n.
  - rewrite lookup_insert_ne in Hk by done. by eapply Hd.
Qed.

Lemma journal_ok_account (st : gmap string bytes) (a : Account) :
  journal_ok st -> ids_ok a ->
  journal_ok (<[accountKey (CustomerID a) (ID a) := AccountJSON a]> st).
Proof.
  intros [Hl Ht] Ha. split; [by apply ledger_ok_account | by apply txs_ok_account].
Qed.

Lemma journal_ok_transaction (st : gmap string bytes) (t : Transaction) :
  journal_ok st -> tx_ok t ->
  journal_ok (<[transactionKey (TxCustomerID t) (TxAccountID t) (TxID t)
                := TransactionJSON t]> st).
Proof.
  intros [Hl Ht] Hok. split; [by apply ledger_ok_transaction | by apply txs_ok_transaction].
Qed.

(** The account a look-up of the transfer finds on a well-kept ledger. *)
Lemma ledger_ok_found (st : gmap string bytes) (c i : string) (a : Account) :
  ledger_ok st -> bytesToAccount <$> st !! accountKey c i = Some a ->
  st !! accountKey c i = Some (AccountJSON a)
  /\ accountKey (CustomerID a) (ID a) = accountKey c i /\ ids_ok a.
Proof.
  intros Hok Hf. destruct (st !! accountKey c i) as [d|] eqn:Hk; [|done].
  destruct (ledger_ok_lookup _ _ _ _ Hok Hk) as (a0 & -> & Hkey & Ha).
  simpl in Hf. injection Hf as <-. done.
Qed.

Lemma ids_ok_tx (a : Account) (n : nat) (t : Transfer) (code : TxFailureCode)
    (status : TxStatus) :
  ids_ok a -> tx_ok (CreateTransaction n (CustomerID a) (ID a) t code status).
Proof. intros (Hc & Hi & _). by split. Qed.

Lemma journal_inv_step (w : World) (c : call) :
  call_ok c -> journal_inv w -> journal_inv (perform w c).
Proof.
  intros Hpay [Hj Hd]. unfold journal_inv, journal_dated in *.
  destruct c as [args|args|args|args]; simpl.
  - destruct (OpenAccount_step args w) as [-> [-> | (a & Hc & ->)]]; [done|].
    split; [apply journal_ok_account; [done | by apply Hpay] | by apply dated_account].
  - destruct (TopupAccount_step args w) as [-> [-> | (cu & i & d & n & Hk & ->)]]; [done|].
    destruct (ledger_ok_lookup _ _ _ _ (proj1 Hj) Hk) as (a & -> & _ & Ha).
    rewrite bytesToAccount_AccountJSON.
    split; [by apply (journal_ok_account _ (Credit a n)) | by apply dated_account].
  - destruct (CloseAccount_step args w) as [-> [-> | (cu & i & d & Hk & ->)]]; [done|].
    destruct (ledger_ok_lookup _ _ _ _ (proj1 Hj) Hk) as (a & -> & _ & Ha).
    rewrite bytesToAccount_AccountJSON.
    split; [by apply (journal_ok_account _ (setClosed a)) | by apply dated_account].
  - destruct (TransferMoney_cases_clock args w) as (ws & [_ ->] & Hout & ->).
    destruct Hout as [t src dst _ _ Hs Hdst _ _ _ _ -> |
                      t src dst on code err _ _ Hs Hdst Hwhy _ -> |
                      err _ _ ->].
    + apply ledger_ok_found in Hs as (_ & _ & Ha); [|apply Hj].
      apply ledger_ok_found in Hdst as (_ & _ & Hb); [|apply Hj].
      unfold apply_puts, transactionWrites. simpl. split.
      * apply (journal_ok_transaction _ (CreateTransaction _ _ _ _ _ _));
          [|by apply ids_ok_tx].
        apply (journal_ok_account _ (Credit dst _)); [|done].
        apply (journal_ok_transaction _ (CreateTransaction _ _ _ _ _ _));
          [|by apply ids_ok_tx].
        by apply (journal_ok_account _ (Debit src _)).
      * apply (dated_transaction _ _ (S (clock w))); [|lia|done].
        apply dated_account.
        apply (dated_transaction _ _ (clock w)); [|lia|done].
        apply dated_account. eapply dated_mono; [|exact Hd]. lia.
    + apply ledger_ok_found in Hs as (_ & _ & Ha); [|apply Hj].
      apply ledger_ok_found in Hdst as (_ & _ & Hb); [|apply Hj].
      assert (Hon : ids_ok on).
      { destruct Hwhy as [(_ & -> & _) | [(_ & _ & -> & _) | (_ & _ & _ & -> & _)]]; done. }
      unfold apply_puts, transactionWrites. simpl. split.
      * apply (journal_ok_transaction _ (CreateTransaction _ _ _ _ _ _)); [done|].
        by apply ids_ok_tx.
      * apply (dated_transaction _ _ (clock w)); [|lia|done].
        eapply dated_mono; [|exact Hd]. lia.
    + unfold apply_puts, transactionWrites. simpl. split; [done|].
      eapply dated_mono; [|exact Hd]. lia.
Qed.

Lemma journal_inv_empty : journal_inv emptyWorld.
Proof.
  split; [split|]; intros k d Hk; simpl in Hk; by rewrite lookup_empty in Hk.
Qed.

(** Whatever calls are made, from a world that is well kept, the journal
    stays well kept and dated, provided the accounts that the calls open
    have good identifiers. *)
Lemma journal_inv_calls (w : World) (calls : list call) :
  calls_ok calls -> journal_inv w -> journal_inv (foldl perform w calls).
Proof.
  revert w. induction calls as [|c calls IH]; intros w Hpay Hw; [done|].
  apply Forall_cons in Hpay as [Hc Hcalls].
  simpl. apply IH; [done|]. by apply journal_inv_step.
Qed.

End Journal.

(** ** Listing the transactions of an account *)

#[global] Instance created_ge_total : Total created_ge.
Proof. intros x y. unfold created_ge. lia. Qed.

Lemma NoDup_omap_inj {A B : Type} (f : A -> option B) (l : list A) :
  NoDup l ->
  (forall x y z, x ∈ l -> y ∈ l -> f x = Some z -> f y = Some z -> x = y) ->
  NoDup (omap f l).
Proof.
  induction 1 as [|x l Hx Hnd IH]; intros Hinj; [constructor|].
  csimpl. destruct (f x) as [z|] eqn:Hfx.
  - apply NoDup_cons. split.
    + intros (y & Hy & Hfy)%list_elem_of_omap.
      apply Hx. rewrite (Hinj x y z); [done| | |done..].
      * apply elem_of_cons. by left.
      * apply elem_of_cons. by right.
    + apply IH. intros a b c Ha Hb. apply Hinj; apply elem_of_cons; by right.
  - apply IH. intros a b c Ha Hb. apply Hinj; apply elem_of_cons; by right.
Qed.

Section Transaction_list.

Context `{Model} `{TransactionDecoding}.

Lemma transactionKey_partial (c a i : string) :
  transactionKey c a i = partialTransactionKey c a +:+ (i +:+ minKeyValue).
Proof.
  unfold transactionKey, partialTransactionKey.
  rewrite (createCompositeKey_app TransactionObjectType [c; a] [i]). simpl.
  by rewrite append_nil_r.
Qed.

Lemma partialTransactionKey_prefix (c a c' a' i : string) :
  sentinel_free c = true -> sentinel_free a = true ->
  sentinel_free c' = true -> sentinel_free a' = true ->
  String.prefix (partialTransactionKey c a) (transactionKey c' a' i) = true ->
  c' = c /\ a' = a.
Proof.
  intros Hc Ha Hc' Ha'. unfold partialTransactionKey, transactionKey.
  rewrite !createCompositeKey_segments, !str_prefix_append. simpl.
  intros Hp. apply prefix_segment in Hp as [-> Hp]; [|done..].
  apply prefix_segment in Hp as [-> _]; done.
Qed.

Lemma partialTransactionKey_accountKey (c a c' a' : string) :
  String.prefix (partialTransactionKey c a) (accountKey c' a') = false.
Proof.
  apply not_true_is_false. intros Hp.
  unfold partialTransactionKey, accountKey in Hp.
  rewrite !createCompositeKey_segments in Hp.
  apply prefix_segment in Hp as [Htag _];
    [| apply TransactionObjectType_free | apply AccountObjectType_free].
  by apply ObjectTypes_distinct.
Qed.

(** The scan of an account's partial transaction key meets exactly the
    transactions recorded on that account. *)
Lemma transaction_scan_hits (st : gmap string bytes) (c a k : string) (d : bytes) :
  journal_ok st ->
  (forall k t, st !! k = Some (TransactionJSON t) -> scan_safe (TxID t) = true) ->
  sentinel_free c = true -> sentinel_free a = true ->
  st !! k = Some d ->
  in_scan (partialTransactionKey c a) (partialTransactionKey c a +:+ MaxRune) k = true
  <-> exists t, d = TransactionJSON t /\ k = transactionKey c a (TxID t)
                /\ TxCustomerID t = c /\ TxAccountID t = a.
Proof.
  intros [Hl Ht] Hsafe Hc Ha Hk. rewrite in_scan_append. split.
  - intros (r & Hr & _).
    assert (Hp : String.prefix (partialTransactionKey c a) k = true)
      by (rewrite Hr; apply str_prefix_append_r).
    destruct (Hl k d Hk) as [(acc & -> & Hka & _) | (t & -> & Hkt)].
    + rewrite Hka in Hp. by rewrite partialTransactionKey_accountKey in Hp.
    + exists t. destruct (Ht k t Hk) as [Htc Hta]. rewrite Hkt in Hp.
      apply partialTransactionKey_prefix in Hp as [Hc' Ha']; [|done..].
      by rewrite Hkt, Hc', Ha'.
  - intros (t & -> & Hkt & _). exists (TxID t +:+ minKeyValue).
    split; [by rewrite Hkt, transactionKey_partial|]. by eapply Hsafe.
Qed.

(** On a well-kept journal with scan-safe transaction identifiers
    [GetTransactionList] returns, most recent first and each once,
    exactly the transactions stored for the account. *)
Lemma GetTransactionList_stored (w : World) (c a : string) :
  journal_ok (state w) ->
  (forall k t, state w !! k = Some (TransactionJSON t) -> scan_safe (TxID t) = true) ->
  sentinel_free c = true -> sentinel_free a = true ->
  exists l, answer (GetTransactionList [c; a]) w = Return (Some (TransactionListJSON l))
            /\ NoDup l /\ Sorted created_ge l
            /\ (forall t, t ∈ l <-> has_transaction w c a (TxID t) t).
Proof.
  intros Hj Hsafe Hc Ha.
  unfold answer, GetTransactionList, partialCompositeKeyQuery, RangeQueryState,
    mbind, M_bind, mret, M_ret. simpl.
  fold (partialTransactionKey c a).
  set (L := merge_sort key_le _).
  assert (HL : forall kv, kv ∈ L <->
            in_scan (partialTransactionKey c a)
                    (partialTransactionKey c a +:+ MaxRune) kv.1 = true
            /\ state w !! kv.1 = Some kv.2).
  { intros [k d]. unfold L. rewrite merge_sort_Permutation, list_elem_of_filter.
    by rewrite elem_of_map_to_list. }
  assert (HLtx : forall kv, kv ∈ L ->
            exists t, kv = (transactionKey c a (TxID t), TransactionJSON t)
                      /\ TxCustomerID t = c /\ TxAccountID t = a).
  { intros [k d] [Hin Hst]%HL. simpl in *.
    apply (transaction_scan_hits _ c a k d Hj Hsafe Hc Ha Hst) in Hin
      as (t & -> & -> & Htc & Hta). by exists t. }
  assert (HND : NoDup L).
  { unfold L. rewrite merge_sort_Permutation. apply NoDup_filter, NoDup_map_to_list. }
  eexists. split; [reflexivity|]. unfold sortByCreated. split; [|split].
  - rewrite merge_sort_Permutation. apply NoDup_omap_inj; [done|].
    intros x y z Hx Hy Hfx Hfy.
    destruct (HLtx x Hx) as (t1 & -> & _). destruct (HLtx y Hy) as (t2 & -> & _).
    simpl in Hfx, Hfy. rewrite json_Unmarshal_Transaction_own in Hfx, Hfy. congruence.
  - apply Sorted_merge_sort, _.
  - intros t. rewrite merge_sort_Permutation, list_elem_of_omap. split.
    + intros (kv & Hkv & Hf). destruct (HLtx kv Hkv) as (t' & -> & Htc & Hta).
      simpl in Hf. rewrite json_Unmarshal_Transaction_own in Hf. injection Hf as ->.
      apply HL in Hkv as [_ Hst]. simpl in Hst. done.
    + intros (Hst & Htc & Hta & _).
      exists (transactionKey c a (TxID t), TransactionJSON t). split.
      * apply HL. simpl. split; [|done].
        apply (transaction_scan_hits _ c a _ _ Hj Hsafe Hc Ha Hst). by exists t.
      * simpl. apply json_Unmarshal_Transaction_own.
Qed.

(** X9: after any sequence of calls on the empty ledger, provided the
    accounts that the calls open have good identifiers and the
    identifiers given to transactions are safe for scans,
    [GetTransactionList] returns for an account whose identifiers hold no
    separator exactly the transactions stored for it, each once and the
    most recently created first. *)
Theorem GetTransactionList_after_calls (calls : list call) (c a : string) :
  calls_ok calls -> generator_safe ->
  sentinel_free c = true -> sentinel_free a = true ->
  exists l, answer (GetTransactionList [c; a]) (foldl perform emptyWorld calls)
              = Return (Some (TransactionListJSON l))
            /\ NoDup l /\ Sorted created_ge l
            /\ (forall t, t ∈ l
                  <-> has_transaction (foldl perform emptyWorld calls) c a (TxID t) t).
Proof.
  intros Hpay Hgen Hc Ha.
  destruct (journal_inv_calls emptyWorld calls Hpay journal_inv_empty) as [Hj Hd].
  apply GetTransactionList_stored; [done| |done..].
  intros k t Hk. destruct (Hd k t Hk) as (n & _ & ->). apply Hgen.
Qed.

End Transaction_list.

(** ** Closed accounts and recorded transactions *)

Section Kept.

Context `{Model}.

Lemma setClosed_closed (a : Account) : Closed a = true -> setClosed a = a.
Proof. destruct a as [c i b cl]. simpl. by intros ->. Qed.

(** A call other than [OpenAccount] leaves a closed account closed, and
    [CloseAccount] and [TransferMoney] leave it as it is. *)
Lemma closed_kept_step (w : World) (c : call) (cu i : string) (a : Account) :
  ledger_ok (state w) -> has_account w cu i a -> Closed a = true ->
  keeps_accounts c = true ->
  exists a', has_account (perform w c) cu i a' /\ Closed a' = true
             /\ (closes_or_transfers c = true -> a' = a).
Proof.
  intros Hok (Hst & Hcu & Hi) Hcl Hkeep.
  destruct c as [args|args|args|args]; [done| | |]; simpl.
  - destruct (TopupAccount_step args w) as [_ [Heq | (cu' & i' & d & n & Hk & Heq)]].
    { exists a. unfold has_account. by rewrite Heq. }
    destruct (ledger_ok_lookup _ _ _ _ Hok Hk) as (a0 & -> & Hkey & _).
    rewrite bytesToAccount_AccountJSON in Heq.
    destruct (decide (accountKey (CustomerID a0) (ID a0) = accountKey cu i)) as [Hsame|Hne].
    + assert (a0 = a) as -> by (rewrite <- Hkey, Hsame, Hst in Hk; by injection Hk).
      exists (Credit a n). unfold has_account. rewrite Heq, Hsame, lookup_insert_eq. done.
    + exists a. unfold has_account. rewrite Heq, lookup_insert_ne by done. done.
  - destruct (CloseAccount_step args w) as [_ [Heq | (cu' & i' & d & Hk & Heq)]].
    { exists a. unfold has_account. by rewrite Heq. }
    destruct (ledger_ok_lookup _ _ _ _ Hok Hk) as (a0 & -> & Hkey & _).
    rewrite bytesToAccount_AccountJSON in Heq.
    destruct (decide (accountKey (CustomerID a0) (ID a0) = accountKey cu i)) as [Hsame|Hne].
    + assert (a0 = a) as -> by (rewrite <- Hkey, Hsame, Hst in Hk; by injection Hk).
      exists a. unfold has_account.
      rewrite Heq, Hsame, lookup_insert_eq, (setClosed_closed a Hcl). done.
    + exists a. unfold has_account. rewrite Heq, lookup_insert_ne by done. done.
  - exists a. split; [|done]. unfold has_account. split; [|done].
    destruct (TransferMoney_cases args w) as (ws & [_ ->] & Hout).
    destruct Hout as [t src dst _ _ Hs Hd Hos Hod _ _ -> |
                      t src dst on code err _ _ _ _ _ _ -> |
                      err _ _ ->]; [| |done].
    + apply ledger_ok_found in Hs as (Hks & Hkeys & _); [|done].
      apply ledger_ok_found in Hd as (Hkd & Hkeyd & _); [|done].
      unfold apply_puts. simpl.
      rewrite lookup_insert_ne by (apply not_eq_sym, accountKey_transactionKey).
      rewrite lookup_insert_ne.
      2:{ rewrite Hkeyd. intros Heq. rewrite Heq, Hst in Hkd. injection Hkd as ->.
          congruence. }
      rewrite lookup_insert_ne by (apply not_eq_sym, accountKey_transactionKey).
      rewrite lookup_insert_ne; [done|].
      rewrite Hkeys. intros Heq. rewrite Heq, Hst in Hks. injection Hks as ->.
      congruence.
    + unfold apply_puts. simpl.
      by rewrite lookup_insert_ne by (apply not_eq_sym, accountKey_transactionKey).
Qed.

Lemma perform_ledger_ok (w : World) (c : call) :
  keeps_accounts c = true -> ledger_ok (state w) -> ledger_ok (state (perform w c)).
Proof.
  destruct c as [args|args|args|args]; [done| | |]; simpl; intros _ Hok.
  - by apply TopupAccount_ledger_ok.
  - by apply CloseAccount_ledger_ok.
  - by apply TransferMoney_ledger_ok.
Qed.

(** X10: on a well-kept ledger a closed account stays closed under every
    sequence of [TopupAccount], [CloseAccount] and [TransferMoney] calls,
    whatever their arguments: no handler but [OpenAccount] clears the
    flag.  Under [CloseAccount] and [TransferMoney] calls the stored
    record does not change at all. *)
Theorem closed_stays_closed (w : World) (calls : list call) (cu i : string) (a : Account) :
  ledger_ok (state w) -> has_account w cu i a -> Closed a = true ->
  forallb keeps_accounts calls = true ->
  exists a', has_account (foldl perform w calls) cu i a' /\ Closed a' = true
             /\ (forallb closes_or_transfers calls = true -> a' = a).
Proof.
  revert w a. induction calls as [|c calls IH]; intros w a Hok Ha Hcl Hkeep.
  { exists a. done. }
  simpl in Hkeep. apply andb_prop in Hkeep as [Hc Hkeep]. simpl.
  destruct (closed_kept_step w c cu i a Hok Ha Hcl Hc) as (a1 & Ha1 & Hcl1 & Hsame1).
  destruct (IH (perform w c) a1 (perform_ledger_ok w c Hc Hok) Ha1 Hcl1 Hkeep)
    as (a2 & Ha2 & Hcl2 & Hsame2).
  exists a2. split; [done|]. split; [done|].
  intros [H1 H2]%andb_prop. rewrite (Hsame2 H2). by apply Hsame1.
Qed.

(** A recorded transaction is not touched by a call. *)
Lemma transaction_kept_step (w : World) (c : call) (k : string) (t : Transaction) :
  journal_inv w -> Inj (=) (=) newTransactionID ->
  state w !! k = Some (TransactionJSON t) ->
  state (perform w c) !! k = Some (TransactionJSON t).
Proof.
  intros [[Hl Ht] Hd] Hinj Hk.
  assert (Hkey : k = transactionKey (TxCustomerID t) (TxAccountID t) (TxID t)).
  { destruct (Hl k _ Hk) as [(a & ? & _) | (t' & [= <-] & ?)]; done. }
  destruct (Ht k t Hk) as [Htc Hta].
  destruct (Hd k t Hk) as (m & Hm & Hid).
  assert (Hfresh : forall (on : Account) n tr code status,
            ids_ok on -> (clock w <= n)%nat ->
            transactionWrite (CreateTransaction n (CustomerID on) (ID on) tr code status)
              = (transactionKey (CustomerID on) (ID on) (newTransactionID n),
                 TransactionJSON (CreateTransaction n (CustomerID on) (ID on) tr code status))
            /\ transactionKey (CustomerID on) (ID on) (newTransactionID n) <> k).
  { intros on n tr code status (Hoc & Hoi & _) Hn. split; [done|].
    rewrite Hkey. intros Heq.
    apply transactionKey_inj in Heq as (_ & _ & Heq); [|done..].
    rewrite Hid in Heq. apply Hinj in Heq. lia. }
  assert (Hacc : forall c' i', accountKey c' i' <> k).
  { intros c' i'. rewrite Hkey. apply accountKey_transactionKey. }
  destruct c as [args|args|args|args]; simpl.
  - destruct (OpenAccount_step args w) as [_ [-> | (a & _ & ->)]]; [done|].
    by rewrite lookup_insert_ne.
  - destruct (TopupAccount_step args w) as [_ [-> | (cu & i & d & n & _ & ->)]]; [done|].
    by rewrite lookup_insert_ne.
  - destruct (CloseAccount_step args w) as [_ [-> | (cu & i & d & _ & ->)]]; [done|].
    by rewrite lookup_insert_ne.
  - destruct (TransferMoney_cases args w) as (ws & [_ ->] & Hout).
    destruct Hout as [tr src dst _ _ Hs Hdst _ _ _ _ -> |
                      tr src dst on code err _ _ Hs Hdst Hwhy _ -> |
                      err _ _ ->]; [| |done].
    + apply ledger_ok_found in Hs as (_ & _ & Ha); [|done].
      apply ledger_ok_found in Hdst as (_ & _ & Hb); [|done].
      destruct (Hfresh dst (S (clock w)) tr NoFailure Credited Hb ltac:(lia)) as [-> Hn2].
      destruct (Hfresh src (clock w) tr NoFailure Debited Ha ltac:(lia)) as [-> Hn1].
      unfold apply_puts, accountWrite. simpl.
      rewrite lookup_insert_ne by done. rewrite lookup_insert_ne by apply Hacc.
      rewrite lookup_insert_ne by done. by rewrite lookup_insert_ne by apply Hacc.
    + apply ledger_ok_found in Hs as (_ & _ & Ha); [|done].
      apply ledger_ok_found in Hdst as (_ & _ & Hb); [|done].
      assert (Hon : ids_ok on).
      { destruct Hwhy as [(_ & -> & _) | [(_ & _ & -> & _) | (_ & _ & _ & -> & _)]]; done. }
      destruct (Hfresh on (clock w) tr code Failed Hon ltac:(lia)) as [-> Hn1].
      unfold apply_puts. simpl. by rewrite lookup_insert_ne by done.
Qed.

(** X11: the transaction log is append-only.  Provided the accounts
    that the calls open have good identifiers and new transactions get
    pairwise different identifiers, a transaction stored after a sequence
    of calls on the empty ledger is stored unchanged, under the same key,
    after any further calls. *)
Theorem transactions_append_only (before later : list call) (k : string)
    (t : Transaction) :
  calls_ok (before ++ later) -> Inj (=) (=) newTransactionID ->
  state (foldl perform emptyWorld before) !! k = Some (TransactionJSON t) ->
  state (foldl perform emptyWorld (before ++ later)) !! k = Some (TransactionJSON t).
Proof.
  intros [Hpay Hlater]%Forall_app Hinj. rewrite foldl_app.
  pose proof (journal_inv_calls emptyWorld before Hpay journal_inv_empty) as Hinv.
  revert Hinv. generalize (foldl perform emptyWorld before). intros w.
  revert w. induction later as [|c later IH]; intros w Hinv Hk; [done|].
  apply Forall_cons in Hlater as [Hc Hlater].
  simpl. apply IH; [done | by apply journal_inv_step | by apply transaction_kept_step].
Qed.

End Kept.

(** ** Scenarios of the transaction ledger *)

Lemma tableModel_generator_safe (accounts : list (string * Account))
    (transfers : list (string * Transfer)) :
  @generator_safe (tableModel accounts transfers).
Proof.
  intros n. unfold scan_safe, newTransactionID, tableModel.
  rewrite !append_cons. reflexivity.
Qed.

Lemma tableModel_generator_inj (accounts : list (string * Account))
    (transfers : list (string * Transfer)) :
  Inj (=) (=) (@newTransactionID (tableModel accounts transfers)).
Proof.
  intros n m. unfold newTransactionID, tableModel. intros Heq.
  apply String.app_inj in Heq. by apply pretty_nat_inj in Heq.
Qed.

Lemma journalScenario_calls_ok (calls : list call) : @calls_ok journalScenario calls.
Proof.
  apply tableModel_calls_ok.
  repeat (apply Forall_cons_2; [repeat split; reflexivity|]). apply Forall_nil_2.
Qed.

(** A, A2 and B are opened, 200 go from A to B and 5000 from A to B are
    refused: the list for c1/a1 holds the transactions stored for it, the
    most recent first. *)
Lemma GetTransactionList_after_calls_witness :
  let calls := [CallOpenAccount ["A"]; CallOpenAccount ["A2"]; CallOpenAccount ["B"];
                CallTransferMoney ["T1"]; CallTransferMoney ["T2"]] in
  @calls_ok journalScenario calls /\ @generator_safe journalScenario
  /\ sentinel_free "c1" = true /\ sentinel_free "a1" = true
  /\ exists l,
       answer (@GetTransactionList journalScenario plainDecoding ["c1"; "a1"])
              (foldl (@perform journalScenario) emptyWorld calls)
         = Return (Some (TransactionListJSON l))
       /\ NoDup l /\ Sorted created_ge l
       /\ (forall t, t ∈ l
             <-> @has_transaction journalScenario
                   (foldl (@perform journalScenario) emptyWorld calls)
                   "c1" "a1" (TxID t) t).
Proof.
  intros calls.
  pose proof (journalScenario_calls_ok calls) as Hpay.
  pose proof (tableModel_generator_safe
                [("A", accountA); ("A2", accountA2); ("B", accountB)]
                [("T1", transfer1); ("T2", transfer2); ("T7", transfer7);
                 ("T8", transfer8)]) as Hgen.
  split; [exact Hpay|]. split; [exact Hgen|]. split; [reflexivity|]. split; [reflexivity|].
  exact (@GetTransactionList_after_calls journalScenario plainDecoding calls "c1" "a1"
           Hpay Hgen eq_refl eq_refl).
Defined.

(** What the list of that scenario is: the Failed entry of the refused
    transfer, then the Debited entry of the completed one. *)
Example GetTransactionList_scenario :
  answer (@GetTransactionList journalScenario plainDecoding ["c1"; "a1"])
         (foldl (@perform journalScenario) emptyWorld
            [CallOpenAccount ["A"]; CallOpenAccount ["A2"]; CallOpenAccount ["B"];
             CallTransferMoney ["T1"]; CallTransferMoney ["T2"]])
  = Return (Some (TransactionListJSON
      [mkTransaction "tx2" "c1" "a1" 2 transfer2 InsufficientFunds Failed;
       mkTransaction "tx0" "c1" "a1" 0 transfer1 NoFailure Debited])).
Proof. vm_compute. reflexivity. Qed.

(** A is closed; it is then topped up, 200 are sent from it and it is
    closed again: it is still stored closed. *)
Lemma closed_stays_closed_witness :
  let w := foldl (@perform journalScenario) emptyWorld
             [CallOpenAccount ["A"]; CallOpenAccount ["B"];
              CallCloseAccount ["c1"; "a1"]] in
  let calls := [CallTopupAccount ["c1"; "a1"; "50"]; CallTransferMoney ["T1"];
                CallCloseAccount ["c1"; "a1"]] in
  @ledger_ok journalScenario (state w)
  /\ @has_account journalScenario w "c1" "a1" (setClosed accountA)
  /\ forallb keeps_accounts calls = true
  /\ exists a', @has_account journalScenario
                  (foldl (@perform journalScenario) w calls) "c1" "a1" a'
                /\ Closed a' = true.
Proof.
  intros w calls.
  assert (Hok : @ledger_ok journalScenario (state w))
    by (apply (@calls_keep_ledger_ok journalScenario), journalScenario_calls_ok).
  assert (Ha : @has_account journalScenario w "c1" "a1" (setClosed accountA))
    by (split; [vm_compute; reflexivity | split; reflexivity]).
  split; [exact Hok|]. split; [exact Ha|]. split; [reflexivity|].
  destruct (@closed_stays_closed journalScenario w calls "c1" "a1" (setClosed accountA)
              Hok Ha eq_refl eq_refl) as (a' & Ha' & Hcl & _).
  exists a'. split; [exact Ha' | exact Hcl].
Defined.

(** The Debited entry tx0 of a first transfer is still stored after a
    second transfer, a top-up and the re-opening of A. *)
Lemma transactions_append_only_witness :
  let before := [CallOpenAccount ["A"]; CallOpenAccount ["B"]; CallTransferMoney ["T1"]] in
  let later := [CallTransferMoney ["T1"]; CallTopupAccount ["c1"; "a1"; "50"];
                CallOpenAccount ["A"]] in
  let t := mkTransaction "tx0" "c1" "a1" 0 transfer1 NoFailure Debited in
  @calls_ok journalScenario (before ++ later)
  /\ Inj (=) (=) (@newTransactionID journalScenario)
  /\ state (foldl (@perform journalScenario) emptyWorld before)
       !! @transactionKey journalScenario "c1" "a1" "tx0" = Some (TransactionJSON t)
  /\ state (foldl (@perform journalScenario) emptyWorld (before ++ later))
       !! @transactionKey journalScenario "c1" "a1" "tx0" = Some (TransactionJSON t).
Proof.
  intros before later t.
  pose proof (journalScenario_calls_ok (before ++ later)) as Hpay.
  pose proof (tableModel_generator_inj
                [("A", accountA); ("A2", accountA2); ("B", accountB)]
                [("T1", transfer1); ("T2", transfer2); ("T7", transfer7);
                 ("T8", transfer8)]) as Hinj.
  assert (Hk : state (foldl (@perform journalScenario) emptyWorld before)
                 !! @transactionKey journalScenario "c1" "a1" "tx0"
               = Some (TransactionJSON t)) by (vm_compute; reflexivity).
  split; [exact Hpay|]. split; [exact Hinj|]. split; [exact Hk|].
  exact (@transactions_append_only journalScenario before later _ t Hpay Hinj Hk).
Defined.

(** ** Transfers between identifiers that share a key *)

(** X12: a valid transfer whose source and destination identifiers give
    the same key reads the one stored account twice.  When that account is
    open and passes the floor check the transfer completes; the credited
    copy is written after the debited one, so the stored balance ends as
    [balance + amount]: the debit and the fee are lost. *)
Theorem TransferMoney_shared_key `{Model} (data : string) (w : World) (a : Account) :
  let t := unmarshalTransfer data in
  Validate t = None ->
  state w !! accountKey (FromCustomerID t) (FromAccountID t) = Some (AccountJSON a) ->
  accountKey (ToCustomerID t) (ToAccountID t)
    = accountKey (FromCustomerID t) (FromAccountID t) ->
  accountKey (CustomerID a) (ID a) = accountKey (FromCustomerID t) (FromAccountID t) ->
  Closed a = false ->
  0 <= Int64.sub (Balance a) (Amount t) ->
  answer (TransferMoney [data]) w = Return None
  /\ state (after (TransferMoney [data]) w) !! accountKey (FromCustomerID t) (FromAccountID t)
     = Some (AccountJSON (Credit a (Amount t)))
  /\ Balance (Credit a (Amount t)) = Int64.wrap (Balance a + Amount t).
Proof.
  intros t Hval Hst Hsame Hown Hopen Hfloor.
  assert (Hs : sourceOf t w = Some a) by (unfold sourceOf; by rewrite Hst).
  assert (Hd : destOf t w = Some a) by (unfold destOf; by rewrite Hsame, Hst).
  destruct (TransferMoney_cases [data] w) as (ws & [_ Hw] & Hout).
  destruct Hout as [t' src' dst' Ht' _ Hs' Hd' _ _ _ Hr Hws |
                    t' src' dst' on code err Ht' _ Hs' Hd' Hwhy _ _ |
                    err Hwhy _ _].
  - injection Ht' as <-. fold t in Hs', Hd'.
    rewrite Hs in Hs'. rewrite Hd in Hd'. injection Hs' as <-. injection Hd' as <-.
    split; [done|]. split; [|done]. rewrite Hw, Hws. unfold apply_puts. simpl.
    rewrite Hown.
    rewrite lookup_insert_ne by (apply not_eq_sym, accountKey_transactionKey).
    by rewrite lookup_insert_eq.
  - injection Ht' as <-. fold t in Hs', Hd'.
    rewrite Hs in Hs'. rewrite Hd in Hd'. injection Hs' as <-. injection Hd' as <-.
    destruct Hwhy as [(? & _) | [(_ & ? & _) | (_ & _ & ? & _)]];
      [congruence..|unfold t in *; lia].
  - destruct Hwhy as [? | (t' & Ht' & Hwhy)]; [done|].
    injection Ht' as <-. fold t in Hwhy.
    destruct Hwhy as [? | [? | (_ & ?)]]; congruence.
Qed.

(** Account D of customer 10, account 1, holds 7; five with fee 1 sent
    from it to customer 1, account 01, leave it with 12. *)
Lemma TransferMoney_shared_key_witness :
  let w := after (@OpenAccount collidingScenario ["D"]) emptyWorld in
  @Validate transfer9 = None
  /\ state w !! @accountKey collidingScenario "10" "1" = Some (AccountJSON accountD)
  /\ @accountKey collidingScenario "1" "01" = @accountKey collidingScenario "10" "1"
  /\ answer (@TransferMoney collidingScenario ["T9"]) w = Return None
  /\ state (after (@TransferMoney collidingScenario ["T9"]) w)
       !! @accountKey collidingScenario "10" "1"
     = Some (AccountJSON (mkAccount "10" "1" 12 false)).
Proof.
  intros w.
  assert (Hv : @Validate (@unmarshalTransfer collidingScenario "T9") = None) by reflexivity.
  assert (Hst : state w !! @accountKey collidingScenario "10" "1"
                = Some (AccountJSON accountD)) by (vm_compute; reflexivity).
  assert (Hk : @accountKey collidingScenario "1" "01"
               = @accountKey collidingScenario "10" "1") by reflexivity.
  split; [exact Hv|]. split; [exact Hst|]. split; [exact Hk|].
  destruct (@TransferMoney_shared_key collidingScenario "T9" w accountD Hv Hst Hk
              eq_refl eq_refl) as (Hr & Hs & _).
  - vm_compute. discriminate.
  - split; [exact Hr | exact Hs].
Defined.
